(** * Changelog tooling of expotools: Markdown.ts and Changelogs.ts

    A shallow embedding of the token model, the renderer and the changelog
    operations, followed by the properties proved about them.

    Conventions of the embedding.
    - A JavaScript string is the list of its UTF-16 code units ([jsstring]).
    - A JavaScript array is a [list]; [findIndex] and [splice] follow
      ECMAScript, including the callback's index argument and negative
      start positions.
    - An optional argument is a value of [JSArg]: it may be absent, a string
      or (when a function is handed to [findIndex] as it is) a number.
    - The third-party tokenizer [marked.lexer] is a parameter wherever
      [lexify] is needed.
    - Objects used as maps are association lists of their own properties
      in insertion order.  Reading a key that was never assigned finds
      what every object inherits: [Object.prototype] is taken to hold its
      standard members and nothing else.  Keys that are array indices
      (which JavaScript enumerates first) are outside the model.
    - An exception is a value of [Error]; code that may throw returns a
      [Result].
    - Numbers that are printed (pull requests, list indices) are natural
      numbers, printed in decimal. *)

From Stdlib Require Import List NArith ZArith Bool Arith Lia Permutation.
From Stdlib Require Import Strings.String Strings.Ascii Numbers.DecimalString.
Import ListNotations.

Set Implicit Arguments.

(* ------------------------------------------------------------------ *)
(** ** JavaScript strings *)

Module JS.

Definition jsstring := list N.

(** An ASCII literal as code units. *)
Definition js (s : string) : jsstring :=
  map N_of_ascii (list_ascii_of_string s).

Fixpoint streq (a b : jsstring) : bool :=
  match a, b with
  | [], [] => true
  | x :: a', y :: b' => N.eqb x y && streq a' b'
  | _, _ => false
  end.

(** WhiteSpace and LineTerminator code units, as [String.prototype.trim]
    strips them. *)
Definition isWhiteSpace (c : N) : bool :=
  ((9 <=? c) && (c <=? 13) || (c =? 32) || (c =? 160) || (c =? 5760)
   || (8192 <=? c) && (c <=? 8202) || (c =? 8232) || (c =? 8233)
   || (c =? 8239) || (c =? 8287) || (c =? 12288) || (c =? 65279))%N.

Fixpoint trimLeft (s : jsstring) : jsstring :=
  match s with
  | [] => []
  | c :: s' => if isWhiteSpace c then trimLeft s' else s
  end.

Fixpoint trimRight (s : jsstring) : jsstring :=
  match s with
  | [] => []
  | c :: s' =>
      match trimRight s' with
      | [] => if isWhiteSpace c then [] else [c]
      | r => c :: r
      end
  end.

Definition trim (s : jsstring) : jsstring := trimLeft (trimRight s).

(** [str.repeat(n)] *)
Fixpoint repeat (s : jsstring) (n : nat) : jsstring :=
  match n with
  | O => []
  | S n' => s ++ repeat s n'
  end.

(** [parts.join(sep)] *)
Fixpoint join (sep : jsstring) (parts : list jsstring) : jsstring :=
  match parts with
  | [] => []
  | [p] => p
  | p :: rest => p ++ sep ++ join sep rest
  end.

(** [str.split(sep)] for a one-unit separator: always at least one part. *)
Fixpoint split (sep : N) (s : jsstring) : list jsstring :=
  match s with
  | [] => [[]]
  | c :: s' =>
      if N.eqb c sep then [] :: split sep s'
      else match split sep s' with
           | [] => [[c]]
           | p :: ps => (c :: p) :: ps
           end
  end.

(** Template interpolation of a natural number. *)
Definition natToString (n : nat) : jsstring :=
  js (NilEmpty.string_of_uint (Nat.to_uint n)).

(** The second argument a function may receive. *)
Inductive JSArg : Type :=
| Undefined
| Str (s : jsstring)
| Num (n : nat).

(** [!arg] *)
Definition falsy (a : JSArg) : bool :=
  match a with
  | Undefined => true
  | Str s => match s with [] => true | _ => false end
  | Num n => Nat.eqb n 0
  end.

(** [text === arg] for a string [text]. *)
Definition strictEq (text : jsstring) (a : JSArg) : bool :=
  match a with
  | Str s => streq text s
  | _ => false
  end.

(** Truthiness of a string. *)
Definition truthy (s : jsstring) : bool :=
  match s with [] => false | _ => true end.

Section Arrays.
Variable A : Type.

Fixpoint findIndexFrom (p : A -> nat -> bool) (l : list A) (i : nat) : Z :=
  match l with
  | [] => (-1)%Z
  | x :: l' => if p x i then Z.of_nat i else findIndexFrom p l' (S i)
  end.

(** [arr.findIndex(p)]: the callback receives the element and its index. *)
Definition findIndex (p : A -> nat -> bool) (l : list A) : Z :=
  findIndexFrom p l 0.

(** The actual start of [arr.splice(start, ...)]. *)
Definition spliceStart (start : Z) (len : nat) : nat :=
  if (start <? 0)%Z then Z.to_nat (Z.max (Z.of_nat len + start) 0)
  else Nat.min (Z.to_nat start) len.

(** [arr.splice(start, deleteCount, ...items)], the array afterwards. *)
Definition splice (start : Z) (deleteCount : nat) (items l : list A)
  : list A :=
  let s := spliceStart start (List.length l) in
  firstn s l ++ items ++ skipn deleteCount (skipn s l).
End Arrays.

(** What the code throws: the four [new Error(...)] of the sources, by
    their message, and the [TypeError] of the runtime.  [BuiltinReached]
    is no exception of the program: it marks a run that starts to read and
    write properties of a built-in object, which is not followed further
    (see [enterSection] in [Changelogs]). *)
Inductive Error : Type :=
| VersionNotFound (version : jsstring)
| ChangeTypeSectionNotFound (type : jsstring)
| TokensNotLoaded
| CannotParseToken (type : jsstring)
| TypeError
| BuiltinReached (member : jsstring).

Inductive Result (A : Type) : Type :=
| Ok (a : A)
| Err (e : Error).

Arguments Ok {A} a.
Arguments Err {A} e.

(** The rest of a computation after a step that may throw. *)
Definition andThen {A B : Type} (r : Result A) (k : A -> Result B)
  : Result B :=
  match r with
  | Ok a => k a
  | Err e => Err e
  end.

(** lodash [unescape]: every occurrence of [&amp;], [&lt;], [&gt;],
    [&quot;] and [&#39;] is replaced, scanning from the left. *)
Fixpoint isPrefix (p s : jsstring) : bool :=
  match p, s with
  | [], _ => true
  | x :: p', y :: s' => N.eqb x y && isPrefix p' s'
  | _ :: _, [] => false
  end.

Definition htmlUnescapes : list (jsstring * N) :=
  [ (js "&amp;", 38%N); (js "&lt;", 60%N); (js "&gt;", 62%N);
    (js "&quot;", 34%N); (js "&#39;", 39%N) ].

Fixpoint entityIn (tbl : list (jsstring * N)) (s : jsstring)
  : option (N * nat) :=
  match tbl with
  | [] => None
  | (e, c) :: tbl' =>
      if isPrefix e s then Some (c, List.length e) else entityIn tbl' s
  end.

Definition entityAt (s : jsstring) : option (N * nat) :=
  entityIn htmlUnescapes s.

(** [skip] counts the units of a matched entity still to be dropped. *)
Fixpoint unescapeFrom (skip : nat) (s : jsstring) : jsstring :=
  match s with
  | [] => []
  | c :: s' =>
      match skip with
      | S k => unescapeFrom k s'
      | O =>
          match entityAt s with
          | Some (ch, len) => ch :: unescapeFrom (pred len) s'
          | None => c :: unescapeFrom 0 s'
          end
      end
  end.

Definition unescape (s : jsstring) : jsstring := unescapeFrom 0 s.

End JS.

Import JS.

(* ------------------------------------------------------------------ *)
(** ** Markdown.ts *)

Module Markdown.

(** The token union.  [raw], the inline children of a heading and the
    [start]/[loose]/[task]/[checked] flags are never read and are left
    out.  [lang] may be missing on a token that comes from the tokenizer.
    [OTHER type] is a token of any type outside the union, as the
    tokenizer may return (a block quote, a table, ...): nothing is read
    of it but its [type], which is none of the seven names. *)
Inductive Token : Type :=
| HEADING (depth : nat) (text : jsstring)
| LIST (depth : nat) (items : list ListItemToken) (ordered : bool)
| LIST_ITEM (item : ListItemToken)
| PARAGRAPH (text : jsstring)
| TEXT (text : jsstring)
| SPACE
| CODE (text : jsstring) (lang : option jsstring)
| OTHER (type : jsstring)
with ListItemToken : Type :=
| ListItem (depth : nat) (text : jsstring) (tokens : list Token).

Definition Tokens := list Token.

Definition itemText (it : ListItemToken) : jsstring :=
  match it with ListItem _ text _ => text end.

Definition createTextToken (text : jsstring) : Token := TEXT text.

(** [createListToken(depth = 1)] *)
Definition createListToken (depth : option nat) : Token :=
  LIST (match depth with Some d => d | None => 1 end) [] false.

(** [createListItemToken(text, depth = 0)] *)
Definition createListItemToken (text : jsstring) : ListItemToken :=
  ListItem 0 text [createTextToken text].

(** [recursivelyFixTokens(tokens, listDepth)], returning the fixed array. *)
Fixpoint fixToken (listDepth : nat) (t : Token) : Token :=
  match t with
  | LIST _ items ordered =>
      LIST listDepth
        ((fix fixItems (l : list ListItemToken) : list ListItemToken :=
            match l with
            | [] => []
            | ListItem _ text tokens :: l' =>
                ListItem listDepth text
                  ((fix fixTokens (ts : list Token) : list Token :=
                      match ts with
                      | [] => []
                      | c :: ts' => fixToken (S listDepth) c :: fixTokens ts'
                      end) tokens)
                :: fixItems l'
            end) items)
        ordered
  | _ => t
  end.

Definition recursivelyFixTokens (tokens : Tokens) (listDepth : nat) : Tokens :=
  map (fixToken listDepth) tokens.

Definition fixItem (listDepth : nat) (it : ListItemToken) : ListItemToken :=
  match it with
  | ListItem _ text tokens =>
      ListItem listDepth text (recursivelyFixTokens tokens (S listDepth))
  end.

Section Lexify.
(** [marked.lexer] *)
Variable lexer : jsstring -> Tokens.

Definition lexify (text : jsstring) : Tokens :=
  recursivelyFixTokens (lexer text) 0.
End Lexify.

Definition EOL : jsstring := [10%N].

Record RenderingContext : Type := mkCtx {
  indent : option nat;
  orderedList : option bool;
  itemIndex : option nat
}.

Module MarkdownRenderer.

(** [indent(depth?, indentStr = '  ')] *)
Definition indentStr (depth : option nat) (unit : jsstring) : jsstring :=
  match depth with
  | Some (S _ as d) => JS.repeat unit d
  | _ => []
  end.

Definition twoSpaces : jsstring := js "  ".

Definition heading (depth : nat) (text : jsstring) : jsstring :=
  indentStr (Some depth) (js "#") ++ js " " ++ text ++ JS.repeat EOL 2.

Definition paragraph (text : jsstring) : jsstring := text ++ EOL.

Definition text (t : jsstring) : jsstring := t.

Definition space : jsstring := EOL.

Definition fence : jsstring := js "```".

(** ['```' + token.lang ?? ''] parses as [('```' + token.lang) ?? '']. *)
Definition code (txt : jsstring) (lang : option jsstring)
           (ctx : RenderingContext) : jsstring :=
  let lines := JS.split 10%N txt in
  let ind := indentStr (indent ctx) twoSpaces in
  let opening :=
    fence ++ match lang with Some l => l | None => js "undefined" end in
  ind ++ JS.join (EOL ++ ind) (opening :: lines ++ [fence]).

Definition bullet (ctx : RenderingContext) : jsstring :=
  match orderedList ctx with
  | Some true =>
      natToString (match itemIndex ctx with Some i => i | None => 1 end)
      ++ js "."
  | _ => js "-"
  end.

Definition itemIndent (ctx : RenderingContext) : nat :=
  match indent ctx with Some i => i | None => 0 end.

(** [renderToken], [list] and [listItem].  The loops add to [output]
    from left to right, so the first token that cannot be rendered decides
    the exception. *)
Fixpoint renderToken (token : Token) (ctx : RenderingContext)
  : Result jsstring :=
  match token with
  | HEADING depth txt => Ok (heading depth txt)
  | LIST _ items ordered =>
      andThen
        ((fix each (l : list ListItemToken) (i : nat) : Result jsstring :=
            match l with
            | [] => Ok []
            | it :: l' =>
                andThen
                  (listItem it (mkCtx (indent ctx) (Some ordered) (Some (S i))))
                  (fun item =>
                     andThen (each l' (S i))
                             (fun output => Ok (item ++ output)))
            end) items 0)
        (fun output => Ok (output ++ EOL))
  | LIST_ITEM it => listItem it ctx
  | PARAGRAPH txt => Ok (paragraph txt)
  | TEXT txt => Ok (text txt)
  | SPACE => Ok space
  | CODE txt lang => Ok (code txt lang ctx)
  | OTHER type => Err (CannotParseToken type)
  end
with listItem (token : ListItemToken) (ctx : RenderingContext)
  : Result jsstring :=
  match token with
  | ListItem _ _ tokens =>
      let ind := itemIndent ctx in
      let ctx' := mkCtx (Some (S ind)) (orderedList ctx) (itemIndex ctx) in
      andThen
        ((fix children (ts : list Token) : Result jsstring :=
            match ts with
            | [] => Ok []
            | child :: ts' =>
                andThen (renderToken child ctx')
                        (fun line =>
                           andThen (children ts')
                                   (fun output =>
                                      Ok (trimRight line ++ EOL ++ output)))
            end) tokens)
        (fun output =>
           Ok (trimRight
                 (indentStr (Some ind) twoSpaces ++ bullet ctx ++ js " "
                  ++ output)
               ++ EOL))
  end.

(** [render(tokens)] of the class. *)
Fixpoint render (tokens : list Token) : Result jsstring :=
  match tokens with
  | [] => Ok []
  | token :: rest =>
      andThen (renderToken token (mkCtx (Some 0) None None))
              (fun text => andThen (render rest)
                                   (fun output => Ok (text ++ output)))
  end.

End MarkdownRenderer.

(** [render(tokens)] with the default renderer. *)
Definition render (tokens : Tokens) : Result jsstring :=
  andThen (MarkdownRenderer.render tokens)
          (fun output => Ok (unescape (trim output ++ EOL))).

End Markdown.

Import Markdown.

(* ------------------------------------------------------------------ *)
(** ** Changelogs.ts *)

Module Changelogs.

Record Entry : Type := mkEntry {
  message : jsstring;
  pullRequests : option (list nat);
  authors : option (list jsstring)
}.

(** [names.includes(text)] *)
Definition includes (names : list jsstring) (text : jsstring) : bool :=
  existsb (streq text) names.

(** The members of [Object.prototype], which every plain object
    inherits. *)
Definition objectPrototypeNames : list jsstring :=
  [ js "constructor"; js "__defineGetter__"; js "__defineSetter__";
    js "hasOwnProperty"; js "__lookupGetter__"; js "__lookupSetter__";
    js "isPrototypeOf"; js "propertyIsEnumerable"; js "toString";
    js "valueOf"; js "__proto__"; js "toLocaleString" ].

Definition inherited (key : jsstring) : bool :=
  includes objectPrototypeNames key.

(** A plain object used as a map from strings: its own properties, in
    insertion order. *)
Section Objects.
Variable V : Type.

Definition Obj := list (jsstring * V).

(** The own property [key]. *)
Fixpoint objGet (key : jsstring) (o : Obj) : option V :=
  match o with
  | [] => None
  | (k, v) :: o' => if streq k key then Some v else objGet key o'
  end.

(** What [o[key]] finds: an own property, a member of [Object.prototype]
    (a function, or [Object.prototype] itself for [__proto__]; truthy in
    any case), or [undefined]. *)
Inductive Lookup : Type :=
| Own (v : V)
| Inherited
| Missing.

Definition objLookup (key : jsstring) (o : Obj) : Lookup :=
  match objGet key o with
  | Some v => Own v
  | None => if inherited key then Inherited else Missing
  end.

(** [if (!o[key]) o[key] = v] for values that are objects or arrays. *)
Definition objInit (key : jsstring) (v : V) (o : Obj) : Obj :=
  match objLookup key o with
  | Missing => o ++ [(key, v)]
  | _ => o
  end.

Fixpoint objModify (key : jsstring) (f : V -> V) (o : Obj) : Obj :=
  match o with
  | [] => []
  | (k, v) :: o' =>
      if streq k key then (k, f v) :: o' else (k, v) :: objModify key f o'
  end.
End Objects.

Arguments Inherited {V}.
Arguments Missing {V}.

Record ChangelogChanges : Type := mkChanges {
  totalCount : nat;
  versions : Obj (Obj (list jsstring))
}.

Module ChangeType.
Definition BREAKING_CHANGES : jsstring :=
  [55357; 57056]%N ++ js " Breaking changes".
Definition NEW_FEATURES : jsstring :=
  [55356; 57225]%N ++ js " New features".
Definition BUG_FIXES : jsstring :=
  [55357; 56347]%N ++ js " Bug fixes".
End ChangeType.

Definition UNPUBLISHED_VERSION_NAME : jsstring := js "master".

Definition VERSION_EMPTY_PARAGRAPH_TEXT : jsstring :=
  js "*This version does not introduce any user-facing changes.*".

Definition VERSION_HEADING_DEPTH : nat := 2.
Definition CHANGE_TYPE_HEADING_DEPTH : nat := 3.
Definition GROUP_LIST_ITEM_DEPTH : nat := 0.

Definition UNPUBLISHED_VERSION_NAMES : list jsstring :=
  [js "master"; js "unpublished"].

Definition isVersionToken (token : Token) (version : JSArg) : bool :=
  match token with
  | HEADING depth text =>
      Nat.eqb depth VERSION_HEADING_DEPTH
      && (falsy version || strictEq text version)
  | _ => false
  end.

Definition isChangeTypeToken (token : Token) (changeType : JSArg) : bool :=
  match token with
  | HEADING depth text =>
      Nat.eqb depth CHANGE_TYPE_HEADING_DEPTH
      && (falsy changeType || strictEq text changeType)
  | _ => false
  end.

Definition getGroupLabel (groupName : jsstring) : jsstring :=
  js "**`" ++ groupName ++ js "`**".

(** Reading [firstToken.type] of a missing first child is a TypeError. *)
Definition isGroupToken (token : ListItemToken) (groupName : jsstring)
  : Result bool :=
  match token with
  | ListItem depth _ tokens =>
      if Nat.eqb depth GROUP_LIST_ITEM_DEPTH then
        match tokens with
        | [] => Err TypeError
        | TEXT text :: _ => Ok (streq text (getGroupLabel groupName))
        | _ :: _ => Ok false
        end
      else Ok false
  end.

Fixpoint findGroupFrom (items : list ListItemToken) (groupName : jsstring)
         (i : nat) : Result (option nat) :=
  match items with
  | [] => Ok None
  | item :: rest =>
      match isGroupToken item groupName with
      | Err e => Err e
      | Ok true => Ok (Some i)
      | Ok false => findGroupFrom rest groupName (S i)
      end
  end.

(** [findGroup(list, groupName)], as the position of the item found. *)
Definition findGroup (items : list ListItemToken) (groupName : jsstring)
  : Result (option nat) :=
  findGroupFrom items groupName 0.

Definition pullRequestLink (pullRequest : nat) : jsstring :=
  js "[#" ++ natToString pullRequest
  ++ js "](https://github.com/expo/expo/pull/" ++ natToString pullRequest
  ++ js ")".

Definition authorLink (author : jsstring) : jsstring :=
  js "[@" ++ author ++ js "](https://github.com/" ++ author ++ js ")".

Definition orEmpty {A : Type} (l : option (list A)) : list A :=
  match l with Some l => l | None => [] end.

Definition getChangeEntryLabel (entry : Entry) : jsstring :=
  let pullRequests := orEmpty (pullRequests entry) in
  let authors := orEmpty (authors entry) in
  if Nat.ltb 0 (List.length pullRequests + List.length authors) then
    let pullRequestsStr := join (js ", ") (map pullRequestLink pullRequests) in
    let authorsStr := join (js ", ") (map authorLink authors) in
    let pullRequestInformations :=
      trim (pullRequestsStr ++ js " by " ++ authorsStr) in
    message entry ++ js " (" ++ pullRequestInformations ++ js ")"
  else message entry.

(* ---------------------------------------------------------------- *)
(** *** getChangesAsync, on the loaded tokens *)

Definition truthyOpt (s : option jsstring) : bool :=
  match s with Some s => truthy s | None => false end.

(** [token.text !== toVersion && (!fromVersion || token.text === fromVersion)] *)
Definition stopsAt (fromVersion : option jsstring) (toVersion text : jsstring)
  : bool :=
  negb (streq text toVersion)
  && (negb (truthyOpt fromVersion)
      || match fromVersion with Some f => streq text f | None => false end).

Record ScanState : Type := mkScan {
  currentVersion : option jsstring;
  currentSection : option jsstring;
  changes : ChangelogChanges
}.

Definition enterVersion (text : jsstring) (st : ScanState) : ScanState :=
  let cv := if includes UNPUBLISHED_VERSION_NAMES text
            then js "unpublished" else text in
  mkScan (Some cv) None
         (mkChanges (totalCount (changes st))
                    (objInit cv [] (versions (changes st)))).

(** [currentSection = token.text] and the initialisation of
    [versions[currentVersion][currentSection]].  When [currentVersion]
    names a member of [Object.prototype], no key was made for it and
    [versions[currentVersion]] is that built-in object: from here on the
    code reads and writes its properties, which depends on the runtime and
    is not followed. *)
Definition enterSection (cv text : jsstring) (st : ScanState)
  : Result ScanState :=
  match objLookup cv (versions (changes st)) with
  | Own _ =>
      Ok (mkScan (currentVersion st) (Some text)
                 (mkChanges (totalCount (changes st))
                            (objModify cv (objInit text [])
                                       (versions (changes st)))))
  | Inherited => Err (BuiltinReached cv)
  | Missing => Err TypeError
  end.

(** [changes.totalCount++; versions[cv][cs].push(item.text)].  What is
    found under an inherited name has no [push], nor has [undefined]: the
    call throws a TypeError. *)
Definition pushItem (cv cs : jsstring) (c : ChangelogChanges)
           (item : ListItemToken) : Result ChangelogChanges :=
  match objLookup cv (versions c) with
  | Own sections =>
      match objLookup cs sections with
      | Own _ =>
          Ok (mkChanges (S (totalCount c))
                        (objModify cv
                           (objModify cs (fun l => l ++ [itemText item]))
                           (versions c)))
      | Inherited => Err TypeError
      | Missing => Err TypeError
      end
  | Inherited => Err (BuiltinReached cv)
  | Missing => Err TypeError
  end.

(** [for (const item of token.items)] *)
Fixpoint pushItems (cv cs : jsstring) (items : list ListItemToken)
         (c : ChangelogChanges) : Result ChangelogChanges :=
  match items with
  | [] => Ok c
  | item :: rest => andThen (pushItem cv cs c item) (pushItems cv cs rest)
  end.

Definition collectList (cv cs : jsstring) (items : list ListItemToken)
           (st : ScanState) : Result ScanState :=
  andThen (pushItems cv cs items (changes st))
          (fun c => Ok (mkScan (currentVersion st) (currentSection st) c)).

(** The [for] loop over the tokens; returning early is the [break]. *)
Fixpoint scanChanges (fromVersion : option jsstring) (toVersion : jsstring)
         (tokens : list Token) (st : ScanState) : Result ScanState :=
  match tokens with
  | [] => Ok st
  | token :: rest =>
      match token with
      | HEADING depth text =>
          if Nat.eqb depth VERSION_HEADING_DEPTH then
            if stopsAt fromVersion toVersion text then Ok st
            else scanChanges fromVersion toVersion rest (enterVersion text st)
          else
            match currentVersion st with
            | Some cv =>
                if truthy cv && Nat.eqb depth CHANGE_TYPE_HEADING_DEPTH
                then andThen (enterSection cv text st)
                             (scanChanges fromVersion toVersion rest)
                else scanChanges fromVersion toVersion rest st
            | None => scanChanges fromVersion toVersion rest st
            end
      | LIST _ items _ =>
          match currentVersion st, currentSection st with
          | Some cv, Some cs =>
              if truthy cv && truthy cs
              then andThen (collectList cv cs items st)
                           (scanChanges fromVersion toVersion rest)
              else scanChanges fromVersion toVersion rest st
          | _, _ => scanChanges fromVersion toVersion rest st
          end
      | _ => scanChanges fromVersion toVersion rest st
      end
  end.

Definition initialScan : ScanState := mkScan None None (mkChanges 0 []).

(** [getChangesAsync(fromVersion?, toVersion = 'master')] once the tokens
    are there. *)
Definition getChanges (fromVersion toVersion : option jsstring)
           (tokens : Tokens) : Result ChangelogChanges :=
  let toVersion := match toVersion with
                   | Some v => v
                   | None => UNPUBLISHED_VERSION_NAME
                   end in
  andThen (scanChanges fromVersion toVersion tokens initialScan)
          (fun st => Ok (changes st)).

(* ---------------------------------------------------------------- *)
(** *** insertEntriesAsync, on the loaded tokens *)

Section Update.
Variable A : Type.

(** In-place change of the element at position [i]. *)
Fixpoint updateAt (i : nat) (f : A -> A) (l : list A) : list A :=
  match l, i with
  | [], _ => []
  | x :: l', O => f x :: l'
  | x :: l', S i' => x :: updateAt i' f l'
  end.

(** The same when the change may throw. *)
Fixpoint updateAtR (i : nat) (f : A -> Result A) (l : list A)
  : Result (list A) :=
  match l, i with
  | [], _ => Ok []
  | x :: l', O =>
      match f x with Ok y => Ok (y :: l') | Err e => Err e end
  | x :: l', S i' =>
      match updateAtR i' f l' with
      | Ok r => Ok (x :: r)
      | Err e => Err e
      end
  end.
End Update.

Definition entryItem (entry : Entry) : ListItemToken :=
  createListItemToken (getChangeEntryLabel entry).

(** One round of [for (const entry of entries)]. *)
Definition pushEntry (group : option jsstring) (list : Token) (entry : Entry)
  : Token :=
  match list with
  | LIST _ items ordered =>
      LIST (if truthyOpt group then 1 else 0) (items ++ [entryItem entry])
           ordered
  | _ => list
  end.

Definition pushEntries (group : option jsstring) (entries : list Entry)
           (list : Token) : Token :=
  fold_left (pushEntry group) entries list.

Fixpoint findListFrom (tokens : list Token) (k : nat) : option nat :=
  match tokens with
  | [] => None
  | LIST _ _ _ :: _ => Some k
  | _ :: rest => findListFrom rest (S k)
  end.

(** The group item's nested list gets the entries; a missing one is
    created with [createListToken(GROUP_LIST_ITEM_DEPTH)] first. *)
Definition fillGroupItem (group : option jsstring) (entries : list Entry)
           (item : ListItemToken) : ListItemToken :=
  match item with
  | ListItem depth text tokens =>
      match findListFrom tokens 0 with
      | Some k =>
          ListItem depth text (updateAt k (pushEntries group entries) tokens)
      | None =>
          ListItem depth text
            (tokens
             ++ [pushEntries group entries
                   (createListToken (Some GROUP_LIST_ITEM_DEPTH))])
      end
  end.

(** Lines 257-282 on the list of the section. *)
Definition fillList (group : option jsstring) (entries : list Entry)
           (list : Token) : Result Token :=
  match list with
  | LIST depth items ordered =>
      match group with
      | Some g =>
          if truthy g then
            match findGroup items g with
            | Err e => Err e
            | Ok (Some gi) =>
                Ok (LIST depth (updateAt gi (fillGroupItem group entries) items)
                         ordered)
            | Ok None =>
                Ok (LIST depth
                         (items
                          ++ [fillGroupItem group entries
                                (createListItemToken (getGroupLabel g))])
                         ordered)
            end
          else Ok (pushEntries group entries list)
      | None => Ok (pushEntries group entries list)
      end
  | _ => Ok list
  end.

(** The inner loop over [j]: where it stops and whether a list is there. *)
Fixpoint findSectionList (changeTypeDepth : nat) (suffix : list Token)
         (j : nat) : nat * bool :=
  match suffix with
  | [] => (j, false)
  | LIST _ _ _ :: _ => (j, true)
  | HEADING depth _ :: rest =>
      if Nat.ltb depth changeTypeDepth then (j, false)
      else findSectionList changeTypeDepth rest (S j)
  | _ :: rest => findSectionList changeTypeDepth rest (S j)
  end.

Definition headingDepth (token : Token) : nat :=
  match token with HEADING depth _ => depth | _ => 0 end.

(** The body run once the change-type heading is met at position [i];
    [rest] is what follows it. *)
Definition insertUnder (tokens : Tokens) (group : option jsstring)
           (entries : list Entry) (changeTypeToken : Token)
           (rest : list Token) (i : nat) : Result Tokens :=
  let '(j, found) :=
    findSectionList (headingDepth changeTypeToken) rest (S i) in
  let tokens' :=
    if found then tokens
    else splice (Z.of_nat j) 0 [createListToken None] tokens in
  updateAtR j (fillList group entries) tokens'.

(** The outer loop over [i], on the tokens after the version heading. *)
Fixpoint scanSection (tokens : Tokens) (type : jsstring)
         (group : option jsstring) (entries : list Entry)
         (suffix : list Token) (i : nat) : Result Tokens :=
  match suffix with
  | [] => Err (ChangeTypeSectionNotFound type)
  | token :: rest =>
      if isVersionToken token Undefined then Ok tokens
      else if isChangeTypeToken token (Str type)
           then insertUnder tokens group entries token rest i
           else scanSection tokens type group entries rest (S i)
  end.

(** [insertEntriesAsync] after the emptiness check and the loading of the
    tokens: the array afterwards, or the error thrown. *)
Definition insertEntries (version type : jsstring) (group : option jsstring)
           (entries : list Entry) (tokens : Tokens) : Result Tokens :=
  let sectionIndex :=
    findIndex (fun token _ => isVersionToken token (Str version)) tokens in
  if (sectionIndex =? -1)%Z then Err (VersionNotFound version)
  else
    let i := S (Z.to_nat sectionIndex) in
    scanSection tokens type group entries (skipn i tokens) i.

(* ---------------------------------------------------------------- *)
(** *** cutOffAsync, on a copy of the loaded tokens *)

Definition newSectionTokens : Tokens :=
  [ HEADING VERSION_HEADING_DEPTH UNPUBLISHED_VERSION_NAME;
    HEADING CHANGE_TYPE_HEADING_DEPTH ChangeType.BREAKING_CHANGES;
    HEADING CHANGE_TYPE_HEADING_DEPTH ChangeType.NEW_FEATURES;
    HEADING CHANGE_TYPE_HEADING_DEPTH ChangeType.BUG_FIXES ].

Definition setText (text : jsstring) (token : Token) : Token :=
  match token with
  | HEADING depth _ => HEADING depth text
  | _ => token
  end.

(** The [while] loop.  [todo] is the array from position [i] on; the first
    component of the result is what the loop stepped over (so its length
    is how far [i] moved), the second is what is left from [i] on. *)
Fixpoint cleanUp (todo : list Token) : list Token * list Token :=
  match todo with
  | [] => ([], [])
  | token :: rest =>
      if isVersionToken token Undefined then ([], todo)
      else if isChangeTypeToken token Undefined
              && match rest with
                 | [] => true
                 | nextToken :: _ =>
                     isChangeTypeToken nextToken Undefined
                     || isVersionToken nextToken Undefined
                 end
           then cleanUp rest
           else let '(kept, remaining) := cleanUp rest in (token :: kept, remaining)
  end.

(** [cutOffAsync] works on a copy of the loaded array that shares its
    tokens with it: the splices are not seen in [this.tokens], the new
    text of the heading is.  [renamed] is [this.tokens] after the call
    has changed the copy.  [isVersionToken] is handed to [findIndex] as
    it is, so its [version] parameter receives the index of the token. *)
Definition renamed (version : jsstring) (tokens : Tokens) : Tokens :=
  let firstVersionHeadingIndex :=
    findIndex (fun token index => isVersionToken token (Num index)) tokens in
  if (firstVersionHeadingIndex =? -1)%Z then tokens
  else updateAt (Z.to_nat firstVersionHeadingIndex) (setText version) tokens.

(** The copy that [cutOffAsync(version)] renders. *)
Definition cutOff (version : jsstring) (tokens : Tokens) : Tokens :=
  let firstVersionHeadingIndex :=
    findIndex (fun token index => isVersionToken token (Num index)) tokens in
  let tokens' :=
    if (firstVersionHeadingIndex =? -1)%Z then tokens
    else
      let f := Z.to_nat firstVersionHeadingIndex in
      let renamed := updateAt f (setText version) tokens in
      let '(kept, remaining) := cleanUp (skipn (S f) renamed) in
      let cleaned := firstn (S f) renamed ++ kept ++ remaining in
      let i := S f + List.length kept in
      if Nat.eqb i (f + 1)
      then splice (Z.of_nat i) 0 [PARAGRAPH VERSION_EMPTY_PARAGRAPH_TEXT]
                  cleaned
      else cleaned in
  splice firstVersionHeadingIndex 0 newSectionTokens tokens'.

(* ---------------------------------------------------------------- *)
(** *** The Changelog object *)

(** [this.tokens] and the content of the file at [this.filePath]
    ([None]: the file cannot be read). *)
Record Changelog : Type := mkChangelog {
  tokens : option Tokens;
  file : option jsstring
}.

Definition M (A : Type) : Type := Changelog -> Result A * Changelog.

Definition ret {A : Type} (a : A) : M A := fun c => (Ok a, c).

Definition throw {A : Type} (e : Error) : M A := fun c => (Err e, c).

(** A step that only computes, and may throw. *)
Definition lift {A : Type} (r : Result A) : M A := fun c => (r, c).

Definition bind {A B : Type} (m : M A) (k : A -> M B) : M B :=
  fun c =>
    match m c with
    | (Ok a, c') => k a c'
    | (Err e, c') => (Err e, c')
    end.

Notation "x <- m ;; k" := (bind m (fun x => k))
  (at level 61, m at next level, right associativity).

Definition setTokens (t : option Tokens) : M unit :=
  fun c => (Ok tt, mkChangelog t (file c)).

(** [fs.outputFile(this.filePath, content)]; a write that fails is outside
    the model. *)
Definition outputFile (content : jsstring) : M unit :=
  fun c => (Ok tt, mkChangelog (tokens c) (Some content)).

Section WithLexer.
(** [marked.lexer] *)
Variable lexer : jsstring -> Tokens.

(** The cache is filled on first use; a file that cannot be read gives
    the empty array. *)
Definition getTokensAsync : M Tokens :=
  fun c =>
    match tokens c with
    | Some t => (Ok t, c)
    | None =>
        let t := match file c with
                 | Some markdown => lexify lexer markdown
                 | None => []
                 end in
        (Ok t, mkChangelog (Some t) (file c))
    end.

Definition getChangesAsync (fromVersion toVersion : option jsstring)
  : M ChangelogChanges :=
  tokens <- getTokensAsync ;;
  lift (getChanges fromVersion toVersion tokens).

(** The content is rendered before the file is touched. *)
Definition saveAsync : M unit :=
  fun c =>
    match tokens c with
    | None => (Ok tt, c)
    | Some t =>
        (content <- lift (Markdown.render t) ;;
         _ <- outputFile content ;;
         setTokens None) c
    end.

Definition insertEntriesAsync (version type : jsstring)
           (group : option jsstring) (entries : list Entry) : M unit :=
  match entries with
  | [] => ret tt
  | _ :: _ =>
      tokens <- getTokensAsync ;;
      match insertEntries version type group entries tokens with
      | Ok tokens' => setTokens (Some tokens')
      | Err e => throw e
      end
  end.

Definition cutOffAsync (version : jsstring) : M unit :=
  tokens <- getTokensAsync ;;
  _ <- setTokens (Some (renamed version tokens)) ;;
  content <- lift (Markdown.render (cutOff version tokens)) ;;
  _ <- outputFile content ;;
  setTokens None.

(** [Changelog.render()] *)
Definition renderLoaded : M jsstring :=
  fun c =>
    match tokens c with
    | None => (Err TokensNotLoaded, c)
    | Some t => (Markdown.render t, c)
    end.
End WithLexer.

(* ---------------------------------------------------------------- *)
(** *** The other methods *)

(** The filter of [getVersionsAsync]. *)
Definition isVersionHeading (token : Token) : bool :=
  match token with
  | HEADING depth _ => Nat.eqb depth VERSION_HEADING_DEPTH
  | _ => false
  end.

(** [token.text] of a heading. *)
Definition headingText (token : Token) : jsstring :=
  match token with
  | HEADING _ text => text
  | _ => []
  end.

(** [getVersionsAsync] on the loaded tokens. *)
Definition getVersions (tokens : Tokens) : list jsstring :=
  map headingText (filter isVersionHeading tokens).

(** [ChangelogEntry]: an entry with its type, version and group. *)
Record ChangelogEntry : Type := mkChangelogEntry {
  entryOf : Entry;
  entryType : jsstring;
  entryVersion : jsstring;
  groupName : jsstring
}.

Definition fileExistsAsync : M bool :=
  fun c => (Ok (match file c with Some _ => true | None => false end), c).

Section Versions.
(** [marked.lexer] *)
Variable lexer : jsstring -> Tokens.
(** Whether [semver.valid(version)] is truthy. *)
Variable semverValid : jsstring -> bool.

Definition getVersionsAsync : M (list jsstring) :=
  tokens <- getTokensAsync lexer ;;
  ret (getVersions tokens).

Definition getLastPublishedVersionAsync : M (option jsstring) :=
  versions <- getVersionsAsync ;;
  ret (List.find semverValid versions).

Definition addChangeAsync (entry : ChangelogEntry) : M unit :=
  insertEntriesAsync lexer (entryVersion entry) (entryType entry)
                     (Some (groupName entry)) [entryOf entry].
End Versions.

End Changelogs.

Import Changelogs.

(* ------------------------------------------------------------------ *)
(** ** The merge-changelogs command *)

Module MergeChangelogs.

(** A package: its name and the content of the file at its
    [changelogPath] ([None]: there is no such file). *)
Record Package : Type := mkPackage {
  packageName : jsstring;
  changelogFile : option jsstring
}.

(** The own property [key] set to [v]. *)
Fixpoint objSet {V : Type} (key : jsstring) (v : V) (o : Obj V) : Obj V :=
  match o with
  | [] => [(key, v)]
  | (k, w) :: o' =>
      if streq k key then (k, v) :: o' else (k, w) :: objSet key v o'
  end.

(** [obj[key] = v] for an object [v].  Assigning to [__proto__] calls the
    setter of [Object.prototype]: the prototype of [obj] is replaced and
    no own property is made. *)
Definition assign {V : Type} (key : jsstring) (v : V) (o : Obj V) : Obj V :=
  if streq key (js "__proto__") then o else objSet key v o.

(** The order of [Array.prototype.sort()] without a comparator: by code
    units. *)
Fixpoint strLeb (a b : jsstring) : bool :=
  match a, b with
  | [], _ => true
  | _ :: _, [] => false
  | x :: a', y :: b' =>
      if N.ltb x y then true
      else if N.eqb x y then strLeb a' b' else false
  end.

Fixpoint insertSorted (x : jsstring) (l : list jsstring) : list jsstring :=
  match l with
  | [] => [x]
  | y :: l' => if strLeb x y then x :: l else y :: insertSorted x l'
  end.

(** [keys.sort()]; the keys of an object are distinct, so the sorted
    array does not depend on the algorithm. *)
Definition sort (l : list jsstring) : list jsstring :=
  fold_right insertSorted [] l.

Section Action.
(** [marked.lexer] *)
Variable lexer : jsstring -> Tokens.

(** The callback mapped over the packages: the changes it stores under
    the package's name, if any, or what it throws. *)
Definition packageChanges (pkg : Package)
  : Result (option ChangelogChanges) :=
  let changelog := mkChangelog None (changelogFile pkg) in
  match fileExistsAsync changelog with
  | (Ok true, changelog') =>
      match getChangesAsync lexer None None changelog' with
      | (Ok changes, _) =>
          Ok (if Nat.ltb 0 (totalCount changes) then Some changes else None)
      | (Err e, _) => Err e
      end
  | (Ok false, _) => Ok None
  | (Err e, _) => Err e
  end.

(** [changelogChanges] once [Promise.all] is settled, the packages taken
    in their order; when a callback throws, [await] throws what it
    threw. *)
Fixpoint collectFrom (packages : list Package)
         (changelogChanges : Obj ChangelogChanges)
  : Result (Obj ChangelogChanges) :=
  match packages with
  | [] => Ok changelogChanges
  | pkg :: rest =>
      andThen (packageChanges pkg)
              (fun stored =>
                 collectFrom rest
                   match stored with
                   | Some changes =>
                       assign (packageName pkg) changes changelogChanges
                   | None => changelogChanges
                   end)
  end.

Definition collectChanges (packages : list Package)
  : Result (Obj ChangelogChanges) :=
  collectFrom packages [].

(** [{ message: entryMessage }] *)
Definition entryOfMessage (entryMessage : jsstring) : Entry :=
  mkEntry entryMessage None None.

(** [for (const type in changes)] *)
Fixpoint insertTypes (packageName : jsstring) (changes : Obj (list jsstring))
  : M unit :=
  match changes with
  | [] => ret tt
  | (type, messages) :: rest =>
      _ <- insertEntriesAsync lexer (js "master") type (Some packageName)
             (map entryOfMessage messages) ;;
      insertTypes packageName rest
  end.

(** [for (const [version, changes] of Object.entries(...versions))] *)
Fixpoint insertVersions (packageName : jsstring)
         (versions : Obj (Obj (list jsstring))) : M unit :=
  match versions with
  | [] => ret tt
  | (_, changes) :: rest =>
      _ <- insertTypes packageName changes ;;
      insertVersions packageName rest
  end.

(** [for (const packageName of sortedPackageNames)] *)
Fixpoint insertPackages (names : list jsstring)
         (changelogChanges : Obj ChangelogChanges) : M unit :=
  match names with
  | [] => ret tt
  | name :: rest =>
      _ <- match objGet name changelogChanges with
           | Some changes => insertVersions name (versions changes)
           | None => ret tt
           end ;;
      insertPackages rest changelogChanges
  end.

(** [action()], on the packages and the content of the main changelog
    file: the outcome and the main changelog afterwards. *)
Definition action (packages : list Package) (mainFile : option jsstring)
  : Result unit * Changelog :=
  let mainChangelog := mkChangelog None mainFile in
  match collectChanges packages with
  | Err e => (Err e, mainChangelog)
  | Ok changelogChanges =>
      let sortedPackageNames := sort (map fst changelogChanges) in
      (_ <- getTokensAsync lexer ;;
       _ <- insertPackages sortedPackageNames changelogChanges ;;
       saveAsync)
        mainChangelog
  end.
End Action.

End MergeChangelogs.

(* ------------------------------------------------------------------ *)
(** * Definitions used to state the properties *)

Unset Implicit Arguments.

(** A tokenizer for closed examples whose tokens are already loaded. *)
Definition noLexer : jsstring -> Tokens := fun _ => [].

(** The rendering as the specification words it: unescaped and trimmed on
    the right only, then one line break. *)
Definition renderRightTrimmed (tokens : Tokens) : Result jsstring :=
  andThen (MarkdownRenderer.render tokens)
          (fun output => Ok (unescape (trimRight output) ++ EOL)).

(** The two loops of the renderer, by themselves: over the items of a
    list and over the children of an item. *)
Fixpoint renderItems (ctx : RenderingContext) (ordered : bool)
         (items : list ListItemToken) (i : nat) : Result jsstring :=
  match items with
  | [] => Ok []
  | it :: rest =>
      andThen
        (MarkdownRenderer.listItem
           it (mkCtx (indent ctx) (Some ordered) (Some (S i))))
        (fun item =>
           andThen (renderItems ctx ordered rest (S i))
                   (fun output => Ok (item ++ output)))
  end.

Fixpoint renderChildren (ctx : RenderingContext) (children : list Token)
  : Result jsstring :=
  match children with
  | [] => Ok []
  | child :: rest =>
      andThen (MarkdownRenderer.renderToken child ctx)
              (fun line =>
                 andThen (renderChildren ctx rest)
                         (fun output => Ok (trimRight line ++ EOL ++ output)))
  end.

(** What the renderer does with a token, in terms of its kind: it returns
    a text for a token of the seven kinds and throws for any other. *)
Definition rendersAs (r : Result jsstring) (known : bool) : Prop :=
  match r with
  | Ok _ => known = true
  | Err e => known = false /\ exists type, e = CannotParseToken type
  end.

(** The content of a file written from [tokens]. *)
Definition written (tokens : Tokens) : option jsstring :=
  match Markdown.render tokens with
  | Ok content => Some content
  | Err _ => None
  end.








(** All the entries of a result, version by version, type by type. *)
Definition sectionEntries (sections : Obj (list jsstring)) : list jsstring :=
  List.concat (map snd sections).

Definition allEntries (c : ChangelogChanges) : list jsstring :=
  List.concat (map (fun v => sectionEntries (snd v)) (versions c)).


(** The key under which the unpublished section is reported. *)
Definition unpublished : jsstring := js "unpublished".





(** A token built only from the seven kinds of the union, as are the
    items and children nested in it. *)
Fixpoint modelled (t : Token) : bool :=
  match t with
  | LIST _ items _ =>
      (fix all (l : list ListItemToken) : bool :=
         match l with
         | [] => true
         | it :: l' => modelledItem it && all l'
         end) items
  | LIST_ITEM it => modelledItem it
  | OTHER _ => false
  | _ => true
  end
with modelledItem (it : ListItemToken) : bool :=
  match it with
  | ListItem _ _ tokens =>
      (fix all (l : list Token) : bool :=
         match l with
         | [] => true
         | c :: l' => modelled c && all l'
         end) tokens
  end.





(** Induction over tokens and the items and children nested in them. *)
Section TokenInduction.
Variable P : Token -> Prop.
Variable Q : ListItemToken -> Prop.
Hypothesis HHeading : forall depth text, P (HEADING depth text).
Hypothesis HList :
  forall depth items ordered, Forall Q items -> P (LIST depth items ordered).
Hypothesis HListItem : forall it, Q it -> P (LIST_ITEM it).
Hypothesis HParagraph : forall text, P (PARAGRAPH text).
Hypothesis HText : forall text, P (TEXT text).
Hypothesis HSpace : P SPACE.
Hypothesis HCode : forall text lang, P (CODE text lang).
Hypothesis HOther : forall type, P (OTHER type).
Hypothesis HItem :
  forall depth text tokens, Forall P tokens -> Q (ListItem depth text tokens).

Fixpoint Token_nested_ind (t : Token) : P t :=
  match t with
  | HEADING depth text => HHeading depth text
  | LIST depth items ordered =>
      HList depth items ordered
        ((fix all (l : list ListItemToken) : Forall Q l :=
            match l with
            | [] => @Forall_nil _ Q
            | it :: l' =>
                @Forall_cons _ Q it l' (ListItem_nested_ind it) (all l')
            end) items)
  | LIST_ITEM it => HListItem it (ListItem_nested_ind it)
  | PARAGRAPH text => HParagraph text
  | TEXT text => HText text
  | SPACE => HSpace
  | CODE text lang => HCode text lang
  | OTHER type => HOther type
  end
with ListItem_nested_ind (it : ListItemToken) : Q it :=
  match it with
  | ListItem depth text tokens =>
      HItem depth text tokens
        ((fix all (l : list Token) : Forall P l :=
            match l with
            | [] => @Forall_nil _ P
            | c :: l' =>
                @Forall_cons _ P c l' (Token_nested_ind c) (all l')
            end) tokens)
  end.
End TokenInduction.

(** The entries held by the [versions] object of a result. *)
Definition versionEntries (vs : Obj (Obj (list jsstring))) : list jsstring :=
  List.concat (map (fun v => sectionEntries (snd v)) vs).

(** What the loop of [getChanges] keeps true: the count is the number of
    entries stored, and the current version and section are keys of the
    result. *)
Definition scanInv (st : ScanState) : Prop :=
  totalCount (changes st)
  = List.length (versionEntries (versions (changes st)))
  /\ match currentVersion st with
     | Some cv =>
         exists secs,
           objGet cv (versions (changes st)) = Some secs
           /\ match currentSection st with
              | Some cs => objGet cs secs <> None
              | None => True
              end
     | None => currentSection st = None
     end.

(** With the default arguments the only key ever made is [unpublished]. *)
Definition onlyUnpublished (st : ScanState) : Prop :=
  (versions (changes st) = [] /\ currentVersion st = None)
  \/ (exists secs, versions (changes st) = [(unpublished, secs)]
                  /\ currentVersion st = Some unpublished).

(** What a computation throws, if it does. *)
Definition thrown {A : Type} (r : Result A) : option Error :=
  match r with
  | Ok _ => None
  | Err e => Some e
  end.

(** The tokens that [cutOffAsync] adds, removes or renames are headings
    and a paragraph; [otherBlock] is any other token. *)
Definition otherBlock (t : Token) : bool :=
  match t with
  | HEADING _ _ => false
  | PARAGRAPH _ => false
  | _ => true
  end.

(** Tokens other than change-type headings. *)
Definition notChangeType (t : Token) : bool :=
  negb (isChangeTypeToken t Undefined).

(** No change-type heading is left empty: each one is directly followed
    by a token that is neither a change-type nor a version heading. *)
Fixpoint wellFilled (l : list Token) : bool :=
  match l with
  | [] => true
  | x :: rest =>
      (if isChangeTypeToken x Undefined then
         match rest with
         | [] => false
         | n :: _ =>
             negb (isChangeTypeToken n Undefined
                   || isVersionToken n Undefined)
         end
       else true)
      && wellFilled rest
  end.

(** The scan of [insertEntries] finds the version heading in [before]
    and, going on from it, meets the change-type heading as the last
    token of [before], with no version heading in between. *)
Definition reachesHeading (version type : jsstring) (before : list Token)
  : Prop :=
  exists pre vh mid ct,
    before = pre ++ vh :: mid ++ [ct]
    /\ Forall (fun t => isVersionToken t (Str version) = false) pre
    /\ isVersionToken vh (Str version) = true
    /\ Forall (fun t => isVersionToken t Undefined = false
                        /\ isChangeTypeToken t (Str type) = false) mid
    /\ isChangeTypeToken ct (Str type) = true.

Definition isList (t : Token) : bool :=
  match t with LIST _ _ _ => true | _ => false end.

Definition notList (t : Token) : bool := negb (isList t).

(** The items of the first list among the children of an item: the
    entries of a group. *)
Definition groupEntries (item : ListItemToken) : list ListItemToken :=
  match item with
  | ListItem _ _ tokens =>
      match List.find isList tokens with
      | Some (LIST _ items _) => items
      | _ => []
      end
  end.

(** Whether a result holds an entry at all. *)
Definition hasEntries (vs : Obj (Obj (list jsstring))) : bool :=
  existsb (fun v => existsb (fun s => match snd s with
                                      | [] => false
                                      | _ :: _ => true
                                      end) (snd v)) vs.

(** The tokens that a file is loaded with. *)
Definition loadedFrom (lexer : jsstring -> Tokens) (f : option jsstring)
  : Tokens :=
  match f with
  | Some markdown => lexify lexer markdown
  | None => []
  end.

(** The tokens that a method works on: the loaded ones, or those that
    [getTokensAsync] loads. *)
Definition loadedTokens (lexer : jsstring -> Tokens) (c : Changelog)
  : Tokens :=
  match tokens c with
  | Some t => t
  | None => loadedFrom lexer (file c)
  end.

(** A tokenizer for closed examples: the empty text is a changelog with
    a title only, any other text one with an unpublished bug fix. *)
Definition toyLexer (text : jsstring) : Tokens :=
  match text with
  | [] => [HEADING 1 (js "Changelog")]
  | _ :: _ =>
      [HEADING 2 (js "master"); HEADING 3 (js "Bug fixes");
       LIST 0 [createListItemToken (js "Fixed X")] false]
  end.

(* ------------------------------------------------------------------ *)
(** * Properties *)

(** ** Strings and arrays *)

Lemma streq_refl (a : jsstring) : streq a a = true.
Proof.
  induction a as [|x a IH]; simpl; [reflexivity|].
  now rewrite N.eqb_refl, IH.
Qed.

Lemma streq_eq (a b : jsstring) : streq a b = true <-> a = b.
Proof.
  split; [|intros ->; apply streq_refl].
  revert b; induction a as [|x a IH]; intros [|y b]; simpl; try discriminate.
  - reflexivity.
  - intros H. apply andb_true_iff in H as [Hx Hs].
    apply N.eqb_eq in Hx. apply IH in Hs. now subst.
Qed.


Section FindIndex.
Variable A : Type.
Variable q : A -> bool.

Lemma findIndexFrom_none (l : list A) (i : nat) :
  Forall (fun x => q x = false) l ->
  findIndexFrom (fun x _ => q x) l i = (-1)%Z.
Proof.
  intros H; revert i; induction H as [|x l Hx _ IH]; intros i; simpl.
  - reflexivity.
  - rewrite Hx. apply IH.
Qed.

Lemma findIndexFrom_found (before : list A) (h : A) (after : list A) (i : nat) :
  Forall (fun x => q x = false) before ->
  q h = true ->
  findIndexFrom (fun x _ => q x) (before ++ h :: after) i
  = Z.of_nat (i + List.length before).
Proof.
  intros H Hh; revert i; induction H as [|x l Hx _ IH]; intros i; simpl.
  - rewrite Hh. f_equal. lia.
  - rewrite Hx, IH. f_equal. lia.
Qed.
End FindIndex.

(** ** The tests on headings *)

Lemma isVersionToken_any (t : Token) :
  isVersionToken t Undefined = true
  <-> exists text, t = HEADING VERSION_HEADING_DEPTH text.
Proof.
  destruct t; simpl; try (split; [discriminate|intros [? ?]; discriminate]).
  rewrite andb_true_r. split.
  - intros H. apply Nat.eqb_eq in H. subst. now eexists.
  - intros [? E]. injection E as -> _. reflexivity.
Qed.

Lemma isVersionToken_text (t : Token) (version : jsstring) :
  version <> [] ->
  (isVersionToken t (Str version) = true
   <-> t = HEADING VERSION_HEADING_DEPTH version).
Proof.
  intros Hv.
  destruct t; simpl; try (split; discriminate).
  destruct version as [|v0 version]; [contradiction|]. simpl.
  split.
  - intros H. apply andb_true_iff in H as [Hd Ht].
    apply Nat.eqb_eq in Hd. apply streq_eq in Ht. now subst.
  - intros E. injection E as -> ->. simpl.
    now rewrite N.eqb_refl, streq_refl.
Qed.

Lemma isChangeTypeToken_text (t : Token) (type : jsstring) :
  type <> [] ->
  (isChangeTypeToken t (Str type) = true
   <-> t = HEADING CHANGE_TYPE_HEADING_DEPTH type).
Proof.
  intros Hv.
  destruct t; simpl; try (split; discriminate).
  destruct type as [|v0 type]; [contradiction|]. simpl.
  split.
  - intros H. apply andb_true_iff in H as [Hd Ht].
    apply Nat.eqb_eq in Hd. apply streq_eq in Ht. now subst.
  - intros E. injection E as -> ->. simpl.
    now rewrite N.eqb_refl, streq_refl.
Qed.

(** ** The cache *)

Lemma getTokensAsync_loaded lexer (c c' : Changelog) (toks : Tokens) :
  getTokensAsync lexer c = (Ok toks, c') ->
  tokens c' = Some toks /\ file c' = file c
  /\ (tokens c = Some toks -> c' = c).
Proof.
  unfold getTokensAsync. destruct c as [[t|] f]; simpl.
  - intros E. injection E as <- <-. auto.
  - intros E. injection E as <- <-. simpl. repeat split. discriminate.
Qed.

Lemma getTokensAsync_total lexer (c : Changelog) :
  exists toks c', getTokensAsync lexer c = (Ok toks, c').
Proof.
  unfold getTokensAsync. destruct (tokens c); eauto.
Qed.

Lemma setTokens_same (c : Changelog) (toks : Tokens) :
  tokens c = Some toks -> setTokens (Some toks) c = (Ok tt, c).
Proof.
  destruct c as [t f]; simpl. intros ->. reflexivity.
Qed.

(** The calls in terms of what they do to the loaded tokens. *)
Lemma insertEntriesAsync_loaded lexer version type group entries c toks c' :
  entries <> [] ->
  getTokensAsync lexer c = (Ok toks, c') ->
  insertEntriesAsync lexer version type group entries c
  = match insertEntries version type group entries toks with
    | Ok toks' => (Ok tt, mkChangelog (Some toks') (file c'))
    | Err e => (Err e, c')
    end.
Proof.
  intros He Hg. destruct entries as [|e entries]; [contradiction|].
  unfold insertEntriesAsync, bind. rewrite Hg.
  destruct (insertEntries version type group (e :: entries) toks);
    reflexivity.
Qed.

Lemma getChangesAsync_loaded lexer fromVersion toVersion c toks c' :
  getTokensAsync lexer c = (Ok toks, c') ->
  getChangesAsync lexer fromVersion toVersion c
  = (getChanges fromVersion toVersion toks, c').
Proof.
  intros Hg. unfold getChangesAsync, bind, lift. rewrite Hg.
  now destruct (getChanges fromVersion toVersion toks).
Qed.

(** When the copy does not render, nothing is written and the loaded
    tokens stay, the first heading renamed. *)
Lemma cutOffAsync_loaded lexer version c toks c' :
  getTokensAsync lexer c = (Ok toks, c') ->
  cutOffAsync lexer version c
  = match Markdown.render (cutOff version toks) with
    | Ok content => (Ok tt, mkChangelog None (Some content))
    | Err e => (Err e, mkChangelog (Some (renamed version toks)) (file c'))
    end.
Proof.
  intros Hg. unfold cutOffAsync, bind, lift, setTokens, outputFile.
  rewrite Hg. cbn [file tokens].
  now destruct (Markdown.render (cutOff version toks)).
Qed.

Lemma saveAsync_loaded (c : Changelog) (toks : Tokens) :
  tokens c = Some toks ->
  saveAsync c
  = match Markdown.render toks with
    | Ok content => (Ok tt, mkChangelog None (Some content))
    | Err e => (Err e, c)
    end.
Proof.
  intros Ht. unfold saveAsync, bind, lift, setTokens, outputFile.
  rewrite Ht. now destruct (Markdown.render toks).
Qed.

(* ------------------------------------------------------------------ *)
(** ** insertEntriesAsync: the early return *)

(** C10: with an empty [entries] array [insertEntriesAsync] returns
    successfully and leaves the changelog as it is, whatever the version,
    type and group are: neither is the file read nor the cache filled, and
    no error is raised even when the version heading is missing. *)
Theorem insertEntriesAsync_empty_entries :
  forall lexer version type group c,
    insertEntriesAsync lexer version type group [] c = (Ok tt, c).
Proof.
  reflexivity.
Qed.

(* ------------------------------------------------------------------ *)
(** ** insertEntriesAsync: a missing version *)

Lemma insertEntries_no_version version type group entries toks :
  Forall (fun t => isVersionToken t (Str version) = false) toks ->
  insertEntries version type group entries toks = Err (VersionNotFound version).
Proof.
  intros H. unfold insertEntries, findIndex.
  now rewrite findIndexFrom_none.
Qed.

(** C5, as the claim states it, fails for the empty version string: the
    tree below has no version-depth heading whose text is empty, yet the
    call succeeds and the entry is inserted under [master]. *)
Lemma insertEntriesAsync_empty_version_matches :
  let toks := [HEADING 2 (js "master"); HEADING 3 (js "Bug fixes")] in
  let c := mkChangelog (Some toks) (written toks) in
  let entry := mkEntry (js "Fixed X") None None in
  ~ In (HEADING VERSION_HEADING_DEPTH []) toks
  /\ insertEntriesAsync noLexer [] (js "Bug fixes") None [entry] c
     = (Ok tt,
        mkChangelog
          (Some (toks ++ [LIST 0 [createListItemToken (js "Fixed X")] false]))
          (file c)).
Proof.
  split.
  - simpl. intros [H|[H|[]]]; discriminate.
  - vm_compute. reflexivity.
Qed.

(** C5, amended: for a non-empty [version] and non-empty [entries], on
    tokens without a version-depth heading of that text the call fails
    with [VersionNotFound]; the file is untouched and the cache holds the
    tokens as they were loaded. *)
Theorem insertEntriesAsync_version_not_found :
  forall lexer version type group entries c toks c',
    version <> [] ->
    entries <> [] ->
    getTokensAsync lexer c = (Ok toks, c') ->
    ~ In (HEADING VERSION_HEADING_DEPTH version) toks ->
    insertEntriesAsync lexer version type group entries c
    = (Err (VersionNotFound version), c')
    /\ file c' = file c
    /\ tokens c' = Some toks.
Proof.
  intros lexer version type group entries c toks c' Hv He Hg Hn.
  destruct (getTokensAsync_loaded _ _ _ _ Hg) as (Ht & Hf & _).
  split; [|auto].
  destruct entries as [|e entries]; [contradiction|].
  unfold insertEntriesAsync, bind. rewrite Hg.
  rewrite insertEntries_no_version; [reflexivity|].
  apply Forall_forall. intros t Hin.
  destruct (isVersionToken t (Str version)) eqn:E; [|reflexivity].
  apply isVersionToken_text in E; [|assumption]. subst. contradiction.
Qed.

Lemma insertEntriesAsync_version_not_found_witness :
  let toks := [HEADING 2 (js "master"); HEADING 3 (js "Bug fixes")] in
  let c := mkChangelog (Some toks) (written toks) in
  let entry := mkEntry (js "Fixed X") None None in
  insertEntriesAsync noLexer (js "9.9.9") (js "Bug fixes") None [entry] c
  = (Err (VersionNotFound (js "9.9.9")), c)
  /\ file c = file c
  /\ tokens c = Some toks.
Proof.
  intros toks c entry.
  apply (@insertEntriesAsync_version_not_found
           noLexer (js "9.9.9") (js "Bug fixes") None [entry] c toks c).
  - discriminate.
  - discriminate.
  - reflexivity.
  - simpl. intros [H|[H|[]]]; discriminate.
Defined.

(* ------------------------------------------------------------------ *)
(** ** insertEntriesAsync: the scan for the change-type heading *)

Lemma isVersionToken_any_false (t : Token) :
  (forall text, t <> HEADING VERSION_HEADING_DEPTH text) ->
  isVersionToken t Undefined = false.
Proof.
  intros H. destruct (isVersionToken t Undefined) eqn:E; [|reflexivity].
  apply isVersionToken_any in E as [text ->]. now destruct (H text).
Qed.

Lemma isChangeTypeToken_text_false (t : Token) (type : jsstring) :
  type <> [] ->
  t <> HEADING CHANGE_TYPE_HEADING_DEPTH type ->
  isChangeTypeToken t (Str type) = false.
Proof.
  intros Hty H. destruct (isChangeTypeToken t (Str type)) eqn:E; [|reflexivity].
  apply isChangeTypeToken_text in E; [contradiction|assumption].
Qed.

(** The outer loop steps over tokens that are neither a version heading
    nor the heading looked for. *)
Lemma scanSection_skip toks type group entries mid rest i :
  Forall (fun t => isVersionToken t Undefined = false
                   /\ isChangeTypeToken t (Str type) = false) mid ->
  scanSection toks type group entries (mid ++ rest) i
  = scanSection toks type group entries rest (i + List.length mid).
Proof.
  intros H; revert i; induction H as [|t mid [Hv Hc] _ IH]; intros i; simpl.
  - f_equal. lia.
  - rewrite Hv, Hc, IH. f_equal. lia.
Qed.

Lemma plain_tokens type (l : list Token) :
  type <> [] ->
  (forall text, ~ In (HEADING VERSION_HEADING_DEPTH text) l) ->
  ~ In (HEADING CHANGE_TYPE_HEADING_DEPTH type) l ->
  Forall (fun t => isVersionToken t Undefined = false
                   /\ isChangeTypeToken t (Str type) = false) l.
Proof.
  intros Hty Hv Hc. apply Forall_forall. intros t Hin. split.
  - apply isVersionToken_any_false. intros text ->. exact (Hv text Hin).
  - apply isChangeTypeToken_text_false; [assumption|].
    intros ->. exact (Hc Hin).
Qed.

Lemma insertEntries_found version type group entries toks s :
  findIndex (fun token _ => isVersionToken token (Str version)) toks
  = Z.of_nat s ->
  insertEntries version type group entries toks
  = scanSection toks type group entries (skipn (S s) toks) (S s).
Proof.
  intros H. unfold insertEntries. rewrite H.
  replace (Z.of_nat s =? -1)%Z with false by (symmetry; apply Z.eqb_neq; lia).
  now rewrite Nat2Z.id.
Qed.

(** C4, as the claim states it, fails for the empty type string, which
    matches every change-type heading: below, a version heading comes
    before any depth-3 heading whose text is the (empty) requested type,
    yet the entry is inserted under [Bug fixes]. *)
Lemma insertEntries_empty_type_matches :
  let toks := [HEADING 2 (js "master"); HEADING 3 (js "Bug fixes");
               HEADING 2 (js "1.0.0")] in
  let entry := mkEntry (js "Fixed X") None None in
  findIndex (fun token _ => isVersionToken token (Str (js "master"))) toks
  = 0%Z
  /\ skipn 1 toks = [HEADING 3 (js "Bug fixes")]
                    ++ HEADING VERSION_HEADING_DEPTH (js "1.0.0") :: []
  /\ ~ In (HEADING CHANGE_TYPE_HEADING_DEPTH [])
          [HEADING 3 (js "Bug fixes")]
  /\ insertEntriesAsync noLexer (js "master") [] None [entry]
       (mkChangelog (Some toks) None)
     = (Ok tt,
        mkChangelog
          (Some [HEADING 2 (js "master"); HEADING 3 (js "Bug fixes");
                 LIST 0 [createListItemToken (js "Fixed X")] false;
                 HEADING 2 (js "1.0.0")])
          None).
Proof.
  repeat split.
  simpl. intros [H|[]]; discriminate.
Qed.

(** C4, amended: for a non-empty requested type.  Once the version heading
    is found at position [s], the scan looks for a depth-3 heading whose
    text is [type]; when a version-depth heading comes before any such
    heading, the call returns successfully and nothing is changed; when
    the tokens end without either, it fails with
    [ChangeTypeSectionNotFound]. *)
Theorem insertEntriesAsync_scan_outcomes :
  forall lexer version type group entries c toks c' s,
    type <> [] ->
    entries <> [] ->
    getTokensAsync lexer c = (Ok toks, c') ->
    findIndex (fun token _ => isVersionToken token (Str version)) toks
    = Z.of_nat s ->
    (forall mid vtext rest,
        skipn (S s) toks
        = mid ++ HEADING VERSION_HEADING_DEPTH vtext :: rest ->
        (forall text, ~ In (HEADING VERSION_HEADING_DEPTH text) mid) ->
        ~ In (HEADING CHANGE_TYPE_HEADING_DEPTH type) mid ->
        insertEntriesAsync lexer version type group entries c = (Ok tt, c'))
    /\ ((forall text,
            ~ In (HEADING VERSION_HEADING_DEPTH text) (skipn (S s) toks)) ->
        ~ In (HEADING CHANGE_TYPE_HEADING_DEPTH type) (skipn (S s) toks) ->
        insertEntriesAsync lexer version type group entries c
        = (Err (ChangeTypeSectionNotFound type), c')).
Proof.
  intros lexer version type group entries c toks c' s Hty He Hg Hs.
  destruct (getTokensAsync_loaded _ _ _ _ Hg) as (Ht & _ & _).
  destruct entries as [|e entries]; [contradiction|].
  split.
  - intros mid vtext rest Hsplit Hv Hc.
    unfold insertEntriesAsync, bind. rewrite Hg.
    rewrite (@insertEntries_found _ _ _ _ _ _ Hs), Hsplit.
    rewrite scanSection_skip by (apply plain_tokens; assumption).
    simpl. now apply setTokens_same.
  - intros Hv Hc.
    unfold insertEntriesAsync, bind. rewrite Hg.
    rewrite (@insertEntries_found _ _ _ _ _ _ Hs).
    rewrite <- (app_nil_r (skipn (S s) toks)).
    rewrite scanSection_skip by (apply plain_tokens; assumption).
    reflexivity.
Qed.

Lemma insertEntriesAsync_scan_outcomes_witness :
  let entry := mkEntry (js "Fixed X") None None in
  let early := [HEADING 2 (js "master"); HEADING 3 (js "New features");
                HEADING 2 (js "1.0.0"); HEADING 3 (js "Bug fixes")] in
  let short := [HEADING 2 (js "master"); HEADING 3 (js "New features")] in
  insertEntriesAsync noLexer (js "master") (js "Bug fixes") None [entry]
    (mkChangelog (Some early) None)
  = (Ok tt, mkChangelog (Some early) None)
  /\ insertEntriesAsync noLexer (js "master") (js "Bug fixes") None [entry]
       (mkChangelog (Some short) None)
     = (Err (ChangeTypeSectionNotFound (js "Bug fixes")),
        mkChangelog (Some short) None).
Proof.
  intros entry early short. split.
  - refine (proj1 (@insertEntriesAsync_scan_outcomes
             noLexer (js "master") (js "Bug fixes") None [entry]
             (mkChangelog (Some early) None) early
             (mkChangelog (Some early) None) 0 _ _ _ _)
             [HEADING 3 (js "New features")] (js "1.0.0")
             [HEADING 3 (js "Bug fixes")] _ _ _);
      try discriminate; try reflexivity.
    + intros text [H|[]]; discriminate.
    + intros [H|[]]; discriminate.
  - refine (proj2 (@insertEntriesAsync_scan_outcomes
             noLexer (js "master") (js "Bug fixes") None [entry]
             (mkChangelog (Some short) None) short
             (mkChangelog (Some short) None) 0 _ _ _ _) _ _);
      try discriminate; try reflexivity.
    + intros text [H|[]]; discriminate.
    + intros [H|[]]; discriminate.
Defined.

(* ------------------------------------------------------------------ *)
(** ** insertEntriesAsync: where the entries land *)

(** C1: the inner loop goes on past headings of the change type's own
    depth ([item.depth < changeTypeToken.depth]), so it leaves the
    matched section.  On the skeleton that [cutOffAsync] itself writes,
    an entry for [Breaking changes] is appended to the list under
    [Bug fixes]; without such a list a new one is spliced in after the
    [Bug fixes] heading; and [getChanges] then reports the entry as a
    bug fix. *)
Theorem insertEntries_leaves_the_section :
  let entry := mkEntry (js "Removed Y") None None in
  let fixedX := createListItemToken (js "Fixed X") in
  let removedY := createListItemToken (js "Removed Y") in
  insertEntries UNPUBLISHED_VERSION_NAME ChangeType.BREAKING_CHANGES None
    [entry] (newSectionTokens ++ [LIST 0 [fixedX] false])
  = Ok (newSectionTokens ++ [LIST 0 [fixedX; removedY] false])
  /\ insertEntries UNPUBLISHED_VERSION_NAME ChangeType.BREAKING_CHANGES None
       [entry] newSectionTokens
     = Ok (newSectionTokens ++ [LIST 0 [removedY] false])
  /\ getChanges None None (newSectionTokens ++ [LIST 0 [removedY] false])
     = Ok (mkChanges 1
             [(js "unpublished",
               [(ChangeType.BREAKING_CHANGES, []);
                (ChangeType.NEW_FEATURES, []);
                (ChangeType.BUG_FIXES, [js "Removed Y"])])])
  /\ insertEntriesAsync noLexer UNPUBLISHED_VERSION_NAME
       ChangeType.BREAKING_CHANGES None [entry]
       (mkChangelog (Some newSectionTokens) (written newSectionTokens))
     = (Ok tt,
        mkChangelog (Some (newSectionTokens ++ [LIST 0 [removedY] false]))
                    (written newSectionTokens)).
Proof.
  repeat split.
Qed.

(** What the inner loop does when the list directly follows the heading:
    then the entries do go to the matched section. *)
Lemma insertUnder_adjacent_list toks group entries h d items ordered rest i :
  insertUnder toks group entries h (LIST d items ordered :: rest) i
  = updateAtR (S i) (fillList group entries) toks.
Proof.
  reflexivity.
Qed.

(* ------------------------------------------------------------------ *)
(** ** cutOffAsync *)

(** [findIndex(isVersionToken)] passes the index as [version]: only
    index 0 leaves the text unconstrained, and no text is strictly equal
    to a number. *)
Lemma isVersionToken_index (t : Token) (i : nat) :
  isVersionToken t (Num (S i)) = false.
Proof.
  destruct t; simpl; try reflexivity. apply andb_false_r.
Qed.

Lemma findIndexFrom_isVersionToken_later (l : list Token) (i : nat) :
  findIndexFrom (fun token index => isVersionToken token (Num index)) l (S i)
  = (-1)%Z.
Proof.
  revert i; induction l as [|t l IH]; intros i; simpl; [reflexivity|].
  now rewrite isVersionToken_index.
Qed.

Lemma findIndex_isVersionToken (l : list Token) :
  findIndex (fun token index => isVersionToken token (Num index)) l
  = match l with
    | t :: _ => if isVersionToken t Undefined then 0%Z else (-1)%Z
    | [] => (-1)%Z
    end.
Proof.
  destruct l as [|t l]; [reflexivity|].
  unfold findIndex; simpl.
  replace (isVersionToken t (Num 0)) with (isVersionToken t Undefined)
    by (destruct t; reflexivity).
  destruct (isVersionToken t Undefined); [reflexivity|].
  apply findIndexFrom_isVersionToken_later.
Qed.

(** Without a version heading in first position nothing is renamed and
    the new section goes in front of the last token. *)
Lemma cutOff_not_found version (l : list Token) :
  match l with t :: _ => isVersionToken t Undefined = false | [] => True end ->
  cutOff version l
  = firstn (List.length l - 1) l ++ newSectionTokens
    ++ skipn (List.length l - 1) l.
Proof.
  intros H. unfold cutOff. rewrite findIndex_isVersionToken.
  assert (E : match l with
              | t :: _ => if isVersionToken t Undefined then 0%Z else (-1)%Z
              | [] => (-1)%Z
              end = (-1)%Z).
  { destruct l; [reflexivity|now rewrite H]. }
  rewrite E. simpl (_ =? _)%Z. cbv iota.
  unfold splice, spliceStart. simpl (_ <? _)%Z. cbv iota.
  replace (Z.to_nat (Z.max (Z.of_nat (List.length l) + -1) 0))
    with (List.length l - 1) by lia.
  reflexivity.
Qed.

(** With the version heading in first position and nothing but three
    change-type headings below it, the section is renamed, emptied and
    given the placeholder, and the new section is put in front. *)
Lemma cutOff_empty_first_section version text t1 t2 t3 rest :
  match rest with
  | t :: _ => isVersionToken t Undefined = true
  | [] => True
  end ->
  cutOff version
    (HEADING VERSION_HEADING_DEPTH text
       :: HEADING CHANGE_TYPE_HEADING_DEPTH t1
       :: HEADING CHANGE_TYPE_HEADING_DEPTH t2
       :: HEADING CHANGE_TYPE_HEADING_DEPTH t3 :: rest)
  = newSectionTokens
    ++ [HEADING VERSION_HEADING_DEPTH version;
        PARAGRAPH VERSION_EMPTY_PARAGRAPH_TEXT]
    ++ rest.
Proof.
  intros H. destruct rest as [|t rest].
  - reflexivity.
  - apply isVersionToken_any in H as [text' ->]. reflexivity.
Qed.

(** C2: a document with a title and an introduction has no version
    heading; [findIndex] gives -1 and [splice(-1, 0, ...)] counts from
    the end, so the new section goes in front of the last token, not to
    position 0.  The result is written and the cache dropped. *)
Theorem cutOffAsync_without_version_heading :
  let toks := [HEADING 1 (js "Changelog"); PARAGRAPH (js "All changes.")] in
  (forall text, ~ In (HEADING VERSION_HEADING_DEPTH text) toks)
  /\ cutOff (js "1.0.0") toks
     = [HEADING 1 (js "Changelog")] ++ newSectionTokens
       ++ [PARAGRAPH (js "All changes.")]
  /\ exists content,
       Markdown.render ([HEADING 1 (js "Changelog")] ++ newSectionTokens
                        ++ [PARAGRAPH (js "All changes.")])
       = Ok content
       /\ cutOffAsync noLexer (js "1.0.0")
            (mkChangelog (Some toks) (written toks))
          = (Ok tt, mkChangelog None (Some content)).
Proof.
  split; [|split; [reflexivity|eexists; split; reflexivity]].
  intros text [H|[H|[]]]; discriminate.
Qed.

(** C6: in a changelog that starts with a title, the [master] heading is
    the first version heading but not the first token; the index that
    [findIndex] passes to [isVersionToken] makes the search fail, so the
    heading is not renamed, no empty heading is removed, no placeholder
    is added, and the new section goes in front of the last token. *)
Theorem cutOffAsync_after_title :
  let section := [HEADING 2 (js "master");
                  HEADING 3 ChangeType.BREAKING_CHANGES;
                  HEADING 3 ChangeType.NEW_FEATURES;
                  HEADING 3 ChangeType.BUG_FIXES] in
  let toks := HEADING 1 (js "Changelog") :: section in
  let result := [HEADING 1 (js "Changelog");
                 HEADING 2 (js "master");
                 HEADING 3 ChangeType.BREAKING_CHANGES;
                 HEADING 3 ChangeType.NEW_FEATURES]
                ++ newSectionTokens
                ++ [HEADING 3 ChangeType.BUG_FIXES] in
  cutOff (js "1.0.0") toks = result
  /\ (exists content,
         Markdown.render result = Ok content
         /\ cutOffAsync noLexer (js "1.0.0")
              (mkChangelog (Some toks) (written toks))
            = (Ok tt, mkChangelog None (Some content)))
  /\ cutOff (js "1.0.0") section
     = newSectionTokens
       ++ [HEADING 2 (js "1.0.0"); PARAGRAPH VERSION_EMPTY_PARAGRAPH_TEXT].
Proof.
  split; [reflexivity|split; [eexists; split; reflexivity|reflexivity]].
Qed.

(* ------------------------------------------------------------------ *)
(** ** Trimming *)

Lemma trimRight_app (s t : jsstring) :
  trimRight t <> [] -> trimRight (s ++ t) = s ++ trimRight t.
Proof.
  intros H. induction s as [|c s IH]; simpl; [reflexivity|].
  rewrite IH. destruct (s ++ trimRight t) eqn:E; [|reflexivity].
  apply app_eq_nil in E as [_ E]. contradiction.
Qed.

Lemma trimRight_snoc (s : jsstring) (c : N) :
  isWhiteSpace c = false -> trimRight (s ++ [c]) = s ++ [c].
Proof.
  intros H. rewrite trimRight_app; simpl; rewrite H; [reflexivity|discriminate].
Qed.

Lemma trimRight_snoc_space (s : jsstring) (c : N) :
  isWhiteSpace c = true -> trimRight (s ++ [c]) = trimRight s.
Proof.
  intros H. induction s as [|x s IH]; simpl.
  - now rewrite H.
  - now rewrite IH.
Qed.

(** What is left by [trimRight] does not end in white space. *)
Lemma trimRight_last (s r : jsstring) (c : N) :
  trimRight s = r ++ [c] -> isWhiteSpace c = false.
Proof.
  revert r; induction s as [|x s IH]; intros r; simpl.
  - destruct r; discriminate.
  - destruct (trimRight s) as [|y t] eqn:E.
    + destruct (isWhiteSpace x) eqn:Hx.
      * destruct r; discriminate.
      * intros H. destruct r as [|z r].
        -- injection H as <-. exact Hx.
        -- injection H as _ H. destruct r; discriminate.
    + intros H. destruct r as [|z r].
      * discriminate.
      * injection H as _ H. eapply IH; exact H.
Qed.

Lemma trimLeft_suffix (s : jsstring) :
  exists p, s = p ++ trimLeft s.
Proof.
  induction s as [|c s [p IH]]; simpl.
  - now exists [].
  - destruct (isWhiteSpace c).
    + exists (c :: p). simpl. now f_equal.
    + now exists [].
Qed.

(** Nor does what is left by [trim]. *)
Lemma trim_last (s r : jsstring) (c : N) :
  trim s = r ++ [c] -> isWhiteSpace c = false.
Proof.
  unfold trim. intros H.
  destruct (trimLeft_suffix (trimRight s)) as [p E].
  rewrite H in E. rewrite app_assoc in E.
  eapply trimRight_last; exact E.
Qed.

(* ------------------------------------------------------------------ *)
(** ** The label of an entry *)

Lemma join_cons (sep p : jsstring) (q : jsstring) (rest : list jsstring) :
  join sep (p :: q :: rest) = p ++ sep ++ join sep (q :: rest).
Proof.
  reflexivity.
Qed.










(* ------------------------------------------------------------------ *)
(** ** render: the end of the text *)

Lemma isPrefix_snoc (e s : jsstring) (c : N) :
  ~ In c e -> isPrefix e (s ++ [c]) = isPrefix e s.
Proof.
  revert s; induction e as [|x e IH]; intros s Hc; [reflexivity|].
  destruct s as [|y s]; simpl.
  - destruct (N.eqb_spec x c) as [->|_]; [|reflexivity].
    exfalso. apply Hc. now left.
  - rewrite IH; [reflexivity|]. intros H. apply Hc. now right.
Qed.

Lemma entityIn_snoc (tbl : list (jsstring * N)) (s : jsstring) (c : N) :
  Forall (fun ec => ~ In c (fst ec)) tbl ->
  entityIn tbl (s ++ [c]) = entityIn tbl s.
Proof.
  intros H; induction H as [|[e ch] tbl He _ IH]; simpl; [reflexivity|].
  rewrite isPrefix_snoc by exact He. now rewrite IH.
Qed.

Lemma entityAt_snoc_EOL (s : jsstring) :
  entityAt (s ++ EOL) = entityAt s.
Proof.
  apply entityIn_snoc.
  repeat constructor; simpl; intuition discriminate.
Qed.

Lemma isPrefix_length (e s : jsstring) :
  isPrefix e s = true -> List.length e <= List.length s.
Proof.
  revert s; induction e as [|x e IH]; intros [|y s]; simpl;
    try discriminate; try lia.
  intros H. apply andb_true_iff in H as [_ H]. apply IH in H. lia.
Qed.

Lemma entityIn_some (tbl : list (jsstring * N)) (s : jsstring) ch len :
  entityIn tbl s = Some (ch, len) ->
  len <= List.length s /\ In ch (map snd tbl).
Proof.
  induction tbl as [|[e c] tbl IH]; simpl; [discriminate|].
  destruct (isPrefix e s) eqn:E.
  - intros H. injection H as <- <-. split; [now apply isPrefix_length|now left].
  - intros H. apply IH in H as [? ?]. auto.
Qed.

Lemma entityAt_some (s : jsstring) ch len :
  entityAt s = Some (ch, len) ->
  len <= List.length s /\ ch <> 10%N.
Proof.
  intros H. apply entityIn_some in H as [Hl Hc]. split; [exact Hl|].
  simpl in Hc. intuition (subst; discriminate).
Qed.

(** A line break at the end is no part of an entity: it is copied. *)
Lemma unescapeFrom_snoc_EOL (s : jsstring) (skip : nat) :
  skip <= List.length s ->
  unescapeFrom skip (s ++ EOL) = unescapeFrom skip s ++ EOL.
Proof.
  revert skip; induction s as [|x s IH]; intros skip Hs.
  - simpl in Hs. replace skip with 0 by lia. reflexivity.
  - destruct skip as [|k].
    + change ((x :: s) ++ EOL) with (x :: (s ++ EOL)).
      cbn [unescapeFrom].
      change (x :: (s ++ EOL)) with ((x :: s) ++ EOL) at 1.
      rewrite entityAt_snoc_EOL.
      destruct (entityAt (x :: s)) as [[ch len]|] eqn:E.
      * apply entityAt_some in E as [Hl _]. simpl in Hl.
        rewrite IH by lia. reflexivity.
      * rewrite IH by lia. reflexivity.
    + simpl in Hs. simpl. apply IH. lia.
Qed.

Lemma unescapeFrom_nil (s : jsstring) :
  unescapeFrom 0 s = [] -> s = [].
Proof.
  destruct s as [|x s]; [reflexivity|]. simpl.
  destruct (entityAt (x :: s)) as [[ch len]|]; discriminate.
Qed.

(** The text ends in a line break only where the input did. *)
Lemma unescapeFrom_last_EOL (s : jsstring) :
  forall skip r,
    unescapeFrom skip s = r ++ EOL -> exists r', s = r' ++ EOL.
Proof.
  induction s as [|x s IH]; intros skip r H.
  - destruct r; discriminate.
  - destruct skip as [|k].
    + cbn [unescapeFrom] in H.
      destruct (entityAt (x :: s)) as [[ch len]|] eqn:E.
      * apply entityAt_some in E as [_ Hch].
        destruct r as [|y r]; simpl in H.
        -- injection H as H _. congruence.
        -- injection H as _ H. apply IH in H as [r' ->].
           now exists (x :: r').
      * destruct r as [|y r]; simpl in H.
        -- injection H as -> H. apply unescapeFrom_nil in H as ->.
           now exists [].
        -- injection H as _ H. apply IH in H as [r' ->].
           now exists (x :: r').
    + simpl in H. apply IH in H as [r' ->]. now exists (x :: r').
Qed.

(** ** The renderer: what it renders and what it refuses *)

Lemma renderToken_LIST depth items ordered ctx :
  MarkdownRenderer.renderToken (LIST depth items ordered) ctx
  = andThen (renderItems ctx ordered items 0)
            (fun output => Ok (output ++ EOL)).
Proof.
  cbn [MarkdownRenderer.renderToken]. f_equal.
  generalize 0 as i.
  induction items as [|it items IH]; intros i; [reflexivity|].
  cbn [renderItems]. rewrite <- IH. reflexivity.
Qed.

Lemma listItem_children depth text children ctx :
  MarkdownRenderer.listItem (ListItem depth text children) ctx
  = andThen
      (renderChildren
         (mkCtx (Some (S (MarkdownRenderer.itemIndent ctx)))
                (orderedList ctx) (itemIndex ctx))
         children)
      (fun output =>
         Ok (trimRight
               (MarkdownRenderer.indentStr
                  (Some (MarkdownRenderer.itemIndent ctx))
                  MarkdownRenderer.twoSpaces
                ++ MarkdownRenderer.bullet ctx ++ js " " ++ output)
             ++ EOL)).
Proof.
  cbn [MarkdownRenderer.listItem]. f_equal.
  induction children as [|c children IH]; [reflexivity|].
  cbn [renderChildren]. rewrite <- IH. reflexivity.
Qed.

Lemma modelled_LIST depth items ordered :
  modelled (LIST depth items ordered) = forallb modelledItem items.
Proof.
  cbn [modelled].
  induction items as [|it items IH]; [reflexivity|].
  cbn [forallb]. now rewrite <- IH.
Qed.

Lemma modelledItem_children depth text children :
  modelledItem (ListItem depth text children) = forallb modelled children.
Proof.
  cbn [modelledItem].
  induction children as [|c children IH]; [reflexivity|].
  cbn [forallb]. now rewrite <- IH.
Qed.

Lemma renderToken_modelled (t : Token) :
  forall ctx, rendersAs (MarkdownRenderer.renderToken t ctx) (modelled t).
Proof.
  apply (Token_nested_ind
           (fun t => forall ctx,
                rendersAs (MarkdownRenderer.renderToken t ctx) (modelled t))
           (fun it => forall ctx,
                rendersAs (MarkdownRenderer.listItem it ctx)
                          (modelledItem it)));
    try (intros; exact eq_refl).
  - intros depth items ordered H ctx.
    rewrite renderToken_LIST, modelled_LIST.
    assert (E : forall i,
               rendersAs (renderItems ctx ordered items i)
                         (forallb modelledItem items)).
    { induction H as [|it items Hit _ IH]; intros i; [exact eq_refl|].
      cbn [renderItems forallb].
      specialize (Hit (mkCtx (indent ctx) (Some ordered) (Some (S i)))).
      destruct (MarkdownRenderer.listItem it _) as [item|e]; cbn [andThen].
      - cbn [rendersAs] in Hit. rewrite Hit. cbn [andb].
        specialize (IH (S i)).
        destruct (renderItems ctx ordered items (S i)); exact IH.
      - destruct Hit as [-> Hty]. split; [reflexivity|exact Hty]. }
    specialize (E 0). destruct (renderItems ctx ordered items 0); exact E.
  - intros it H ctx. exact (H ctx).
  - intros type ctx. split; [reflexivity|]. now exists type.
  - intros depth text children H ctx.
    rewrite listItem_children, modelledItem_children.
    set (ctx' := mkCtx _ _ _).
    assert (E : rendersAs (renderChildren ctx' children)
                          (forallb modelled children)).
    { induction H as [|c children Hc _ IH]; [exact eq_refl|].
      cbn [renderChildren forallb]. specialize (Hc ctx').
      destruct (MarkdownRenderer.renderToken c ctx') as [line|e];
        cbn [andThen].
      - cbn [rendersAs] in Hc. rewrite Hc. cbn [andb].
        destruct (renderChildren ctx' children); exact IH.
      - destruct Hc as [-> Hty]. split; [reflexivity|exact Hty]. }
    destruct (renderChildren ctx' children); exact E.
Qed.

Lemma render_modelled (toks : list Token) :
  rendersAs (MarkdownRenderer.render toks) (forallb modelled toks).
Proof.
  induction toks as [|t toks IH]; [exact eq_refl|].
  cbn [MarkdownRenderer.render forallb].
  pose proof (renderToken_modelled t (mkCtx (Some 0) None None)) as Ht.
  destruct (MarkdownRenderer.renderToken t _) as [text|e]; cbn [andThen].
  - cbn [rendersAs] in Ht. rewrite Ht. cbn [andb].
    destruct (MarkdownRenderer.render toks); exact IH.
  - destruct Ht as [-> Hty]. split; [reflexivity|exact Hty].
Qed.

Lemma Markdown_render_modelled (toks : Tokens) :
  rendersAs (Markdown.render toks) (forallb modelled toks).
Proof.
  unfold Markdown.render. pose proof (render_modelled toks) as H.
  destruct (MarkdownRenderer.render toks); exact H.
Qed.

(** C8, as the claim states it, fails where the renderer's output begins
    with white space: [trim] strips both ends, so the leading line break
    of a space token is lost, which trimming on the right alone would
    have kept. *)
Lemma render_trims_leading_space :
  let toks := [SPACE; PARAGRAPH (js "x")] in
  MarkdownRenderer.render toks = Ok (EOL ++ js "x" ++ EOL)
  /\ Markdown.render toks = Ok (js "x" ++ EOL)
  /\ renderRightTrimmed toks = Ok (EOL ++ js "x" ++ EOL)
  /\ Markdown.render toks <> renderRightTrimmed toks.
Proof.
  repeat split. discriminate.
Qed.

Lemma one_trailing_newline (output : jsstring) :
  unescape (trim output ++ EOL) = unescape (trim output) ++ EOL
  /\ forall body', unescape (trim output) <> body' ++ EOL.
Proof.
  split.
  - unfold unescape. apply unescapeFrom_snoc_EOL. lia.
  - intros body' H. unfold unescape in H.
    apply unescapeFrom_last_EOL in H as [r' H].
    apply trim_last in H. discriminate.
Qed.

(** C8, amended: [render] gives the renderer's output trimmed at both
    ends and HTML-unescaped, followed by one line break, and throws what
    the renderer throws; a text it returns ends in exactly one line
    break; and it returns a text for every sequence of tokens of the
    seven kinds. *)
Theorem render_one_trailing_newline :
  forall toks : Tokens,
    Markdown.render toks
    = andThen (MarkdownRenderer.render toks)
              (fun output => Ok (unescape (trim output) ++ EOL))
    /\ (forall text,
           Markdown.render toks = Ok text ->
           exists body,
             text = body ++ EOL /\ forall body', body <> body' ++ EOL)
    /\ (forallb modelled toks = true ->
        exists text, Markdown.render toks = Ok text).
Proof.
  intros toks. split; [|split].
  - unfold Markdown.render.
    destruct (MarkdownRenderer.render toks) as [output|e]; [|reflexivity].
    cbn [andThen]. f_equal. apply one_trailing_newline.
  - unfold Markdown.render.
    destruct (MarkdownRenderer.render toks) as [output|e]; [|discriminate].
    cbn [andThen]. intros text E. injection E as <-.
    exists (unescape (trim output)). apply one_trailing_newline.
  - intros H. pose proof (Markdown_render_modelled toks) as R.
    destruct (Markdown.render toks) as [text|e]; [now exists text|].
    destruct R as [R _]. congruence.
Qed.

(* ------------------------------------------------------------------ *)
(** ** getChangesAsync: where the scan stops *)







(** ** Objects: own and inherited keys *)

Lemma objLookup_own (V : Type) (key : jsstring) (o : Obj V) (v : V) :
  objGet key o = Some v -> objLookup key o = Own v.
Proof.
  unfold objLookup. now intros ->.
Qed.

Lemma objLookup_own_inv (V : Type) (key : jsstring) (o : Obj V) (v : V) :
  objLookup key o = Own v -> objGet key o = Some v.
Proof.
  unfold objLookup. destruct (objGet key o); [congruence|].
  destruct (inherited key); discriminate.
Qed.

Lemma objGet_last (V : Type) (key : jsstring) (v : V) (o : Obj V) :
  objGet key (o ++ [(key, v)]) <> None.
Proof.
  induction o as [|[k w] o IH]; simpl.
  - now rewrite streq_refl.
  - destruct (streq k key); [discriminate|exact IH].
Qed.

(** A key that is not inherited is there once it is initialised. *)
Lemma objGet_objInit_same (V : Type) (key : jsstring) (v : V) (o : Obj V) :
  inherited key = false -> objGet key (objInit key v o) <> None.
Proof.
  intros Hk. unfold objInit, objLookup.
  destruct (objGet key o) eqn:E; [congruence|].
  rewrite Hk. apply objGet_last.
Qed.


Lemma objInit_cases (V : Type) (key : jsstring) (v : V) (o : Obj V) :
  objInit key v o = o \/ objInit key v o = o ++ [(key, v)].
Proof.
  unfold objInit. destruct (objLookup key o); auto.
Qed.

Lemma objGet_app (V : Type) (key : jsstring) (o o' : Obj V) :
  objGet key o <> None -> objGet key (o ++ o') <> None.
Proof.
  induction o as [|[k w] o IH]; simpl; [congruence|].
  destruct (streq k key); [discriminate|exact IH].
Qed.

Lemma objGet_objInit_other (V : Type) (key k : jsstring) (v : V) (o : Obj V) :
  objGet k o <> None -> objGet k (objInit key v o) <> None.
Proof.
  destruct (objInit_cases V key v o) as [->| ->]; [auto|]. apply objGet_app.
Qed.

Lemma sectionEntries_objInit (key : jsstring) (o : Obj (list jsstring)) :
  sectionEntries (objInit key [] o) = sectionEntries o.
Proof.
  destruct (objInit_cases _ key [] o) as [->| ->]; [reflexivity|].
  unfold sectionEntries.
  rewrite map_app, concat_app. simpl. now rewrite app_nil_r.
Qed.

Lemma objGet_objModify (V : Type) (key k : jsstring) (f : V -> V) (o : Obj V) :
  objGet k o <> None -> objGet k (objModify key f o) <> None.
Proof.
  induction o as [|[k' w] o IH]; simpl; [congruence|].
  destruct (streq k' key) eqn:E; simpl.
  - destruct (streq k' k); [discriminate|auto].
  - destruct (streq k' k); [discriminate|auto].
Qed.

Lemma sectionEntries_push (key x : jsstring) (o : Obj (list jsstring)) :
  objGet key o <> None ->
  Permutation (sectionEntries (objModify key (fun l => l ++ [x]) o))
              (sectionEntries o ++ [x]).
Proof.
  unfold sectionEntries.
  induction o as [|[k w] o IH]; simpl; [congruence|].
  destruct (streq k key); simpl; intros H.
  - rewrite <- !app_assoc. apply Permutation_app_head.
    apply Permutation_app_comm.
  - rewrite <- app_assoc. apply Permutation_app_head. now apply IH.
Qed.

(** ** getChangesAsync: the unpublished section alone *)

Lemma pushItem_unpublished (cs : jsstring) (n : nat)
      (secs : Obj (list jsstring)) (it : ListItemToken) :
  pushItem unpublished cs (mkChanges n [(unpublished, secs)]) it
  = match objLookup cs secs with
    | Own _ =>
        Ok (mkChanges (S n)
              [(unpublished,
                objModify cs (fun l => l ++ [itemText it]) secs)])
    | _ => Err TypeError
    end.
Proof.
  unfold pushItem. cbn [versions totalCount].
  change (objLookup unpublished [(unpublished, secs)]) with (Own secs).
  cbv iota. destruct (objLookup cs secs); reflexivity.
Qed.

Lemma collect_items (cs : jsstring) (items : list ListItemToken) :
  forall n secs,
    objGet cs secs <> None ->
    exists secs',
      pushItems unpublished cs items (mkChanges n [(unpublished, secs)])
      = Ok (mkChanges (n + List.length items) [(unpublished, secs')])
      /\ objGet cs secs' <> None
      /\ Permutation (sectionEntries secs')
                     (sectionEntries secs ++ map itemText items).
Proof.
  induction items as [|it items IH]; intros n secs Hk.
  - exists secs. simpl. rewrite Nat.add_0_r, app_nil_r. auto.
  - cbn [pushItems]. rewrite pushItem_unpublished.
    assert (E : exists l, objGet cs secs = Some l).
    { destruct (objGet cs secs) as [l|]; [now exists l|congruence]. }
    destruct E as [l E].
    rewrite (objLookup_own _ cs secs l E). cbn [andThen].
    destruct (IH (S n) (objModify cs (fun l => l ++ [itemText it]) secs))
      as (secs' & E' & Hk' & P).
    { now apply objGet_objModify. }
    exists secs'. split; [|split].
    + rewrite E'. do 2 f_equal. simpl. lia.
    + exact Hk'.
    + rewrite P. cbn [map].
      rewrite (sectionEntries_push cs (itemText it) secs Hk).
      now rewrite <- app_assoc.
Qed.

(** Under a heading with an inherited name the first item throws. *)
Lemma collect_items_inherited (cs : jsstring) (it : ListItemToken)
      (items : list ListItemToken) (n : nat) (secs : Obj (list jsstring)) :
  objGet cs secs = None ->
  pushItems unpublished cs (it :: items) (mkChanges n [(unpublished, secs)])
  = Err TypeError.
Proof.
  intros E. cbn [pushItems]. rewrite pushItem_unpublished.
  unfold objLookup. rewrite E. now destruct (inherited cs).
Qed.









(* ------------------------------------------------------------------ *)
(** ** lexify and render *)

Lemma fixToken_LIST (d depth : nat) (items : list ListItemToken) ordered :
  fixToken d (LIST depth items ordered)
  = LIST d (map (fixItem d) items) ordered.
Proof.
  cbn [fixToken]. f_equal.
  induction items as [|[d0 text toks] items IH]; [reflexivity|].
  cbn [map fixItem]. rewrite <- IH. reflexivity.
Qed.




Lemma fixToken_fixToken (t : Token) :
  forall d d', fixToken d (fixToken d' t) = fixToken d t.
Proof.
  apply (Token_nested_ind
           (fun t => forall d d', fixToken d (fixToken d' t) = fixToken d t)
           (fun it => forall d d', fixItem d (fixItem d' it) = fixItem d it));
    try reflexivity.
  - intros depth items ordered H d d'. rewrite !fixToken_LIST. f_equal.
    rewrite map_map.
    induction H as [|it items Hit _ IH]; [reflexivity|].
    cbn [map]. now rewrite Hit, IH.
  - intros depth text toks H d d'. cbn [fixItem]. f_equal.
    unfold recursivelyFixTokens. rewrite map_map.
    induction H as [|c toks Hc _ IH]; [reflexivity|].
    cbn [map]. now rewrite Hc, IH.
Qed.



Lemma map_fixToken_fixToken (l : list Token) (d d' : nat) :
  map (fixToken d) (map (fixToken d') l) = map (fixToken d) l.
Proof.
  rewrite map_map. apply map_ext. intros t. apply fixToken_fixToken.
Qed.

(** ** A tokenizer that gives the text back *)



















(* ------------------------------------------------------------------ *)
(** ** Worked examples *)

(** An entry without group goes into a new list right under the heading
    when nothing else follows it in the version section. *)
Example insert_under_last_heading :
  let toks := [HEADING 1 (js "Changelog"); HEADING 2 (js "master");
               HEADING 3 (js "Bug fixes"); HEADING 2 (js "1.0.0")] in
  match insertEntries (js "master") (js "Bug fixes") None
                      [mkEntry (js "Fixed X") None None] toks with
  | Ok toks' =>
      Markdown.render toks'
      = Ok (js "# Changelog

## master

### Bug fixes

- Fixed X

## 1.0.0
")
  | Err _ => False
  end.
Proof. reflexivity. Qed.

(** With a group the entry is nested one level deeper under the
    decorated name of the group. *)
Example insert_into_group :
  let toks := [HEADING 2 (js "master"); HEADING 3 (js "Bug fixes")] in
  match insertEntries (js "master") (js "Bug fixes") (Some (js "expo-foo"))
                      [mkEntry (js "Fixed X") None None] toks with
  | Ok toks' =>
      toks' = toks ++ [LIST 1 [ListItem 0 (js "**`expo-foo`**")
                                 [TEXT (js "**`expo-foo`**");
                                  LIST 1 [createListItemToken (js "Fixed X")]
                                       false]]
                            false]
      /\ Markdown.render toks'
         = Ok (js "## master

### Bug fixes

- **`expo-foo`**
  - Fixed X
")
  | Err _ => False
  end.
Proof. split; reflexivity. Qed.

Example render_unescapes_and_numbers :
  Markdown.render
    [PARAGRAPH (js "a &lt; b &amp;&amp; c");
     LIST 0 [createListItemToken (js "one"); createListItemToken (js "two")]
          true;
     CODE (js "x
y") (Some (js "js"))]
  = Ok (js "a < b && c
1. one
2. two

```js
x
y
```
").
Proof. reflexivity. Qed.

(** A token of a type outside the union is refused, also when it is a
    child of a list item; what comes after it is not looked at. *)
Example render_refuses_other_tokens :
  Markdown.render
    [HEADING 2 (js "master");
     LIST 0 [ListItem 0 (js "a") [TEXT (js "a"); OTHER (js "blockquote")]]
          false;
     OTHER (js "table")]
  = Err (CannotParseToken (js "blockquote")).
Proof. reflexivity. Qed.

(** Under a version heading named after a member of [Object.prototype]
    (read when it is [toVersion]) no key is made, and the change-type
    heading that follows is looked up in the built-in function: the run
    leaves what is described here.  Under a change-type heading with such
    a name, an empty list is harmless and an item throws. *)
Example getChanges_inherited_names :
  getChanges None (Some (js "toString"))
    [HEADING 2 (js "toString"); HEADING 3 (js "Bug fixes");
     LIST 0 [createListItemToken (js "Fixed X")] false]
  = Err (BuiltinReached (js "toString"))
  /\ getChanges None (Some (js "toString")) [HEADING 2 (js "toString")]
     = Ok (mkChanges 0 [])
  /\ getChanges None None
       [HEADING 2 (js "master"); HEADING 3 (js "constructor");
        LIST 0 [] false]
     = Ok (mkChanges 0 [(js "unpublished", [])])
  /\ getChanges None None
       [HEADING 2 (js "master"); HEADING 3 (js "constructor");
        LIST 0 [createListItemToken (js "Fixed X")] false]
     = Err TypeError.
Proof. repeat split. Qed.

Example lexify_sets_depths :
  lexify (fun _ => [LIST 7 [ListItem 9 (js "a")
                              [TEXT (js "a");
                               LIST 5 [ListItem 3 (js "b") [TEXT (js "b")]]
                                    false]]
                         false]) []
  = [LIST 0 [ListItem 0 (js "a")
               [TEXT (js "a");
                LIST 1 [ListItem 1 (js "b") [TEXT (js "b")]] false]]
          false].
Proof. reflexivity. Qed.

Example cutOff_with_entries :
  let fixedX := LIST 0 [createListItemToken (js "Fixed X")] false in
  cutOff (js "1.0.0")
    [HEADING 2 (js "master");
     HEADING 3 ChangeType.BREAKING_CHANGES;
     HEADING 3 ChangeType.NEW_FEATURES;
     HEADING 3 ChangeType.BUG_FIXES; fixedX;
     HEADING 2 (js "0.9.0")]
  = newSectionTokens
    ++ [HEADING 2 (js "1.0.0"); HEADING 3 ChangeType.BUG_FIXES; fixedX;
        HEADING 2 (js "0.9.0")].
Proof. reflexivity. Qed.

(* ------------------------------------------------------------------ *)
(** * Further properties *)

(** ** getChangesAsync: the count and the keys *)

Lemma objGet_objModify_same (V : Type) (key : jsstring) (f : V -> V)
      (o : Obj V) (v : V) :
  objGet key o = Some v -> objGet key (objModify key f o) = Some (f v).
Proof.
  induction o as [|[k w] o IH]; simpl; [discriminate|].
  destruct (streq k key) eqn:E; simpl; rewrite E.
  - intros H. injection H as ->. reflexivity.
  - exact IH.
Qed.

Lemma versionEntries_objInit (cv : jsstring) (vs : Obj (Obj (list jsstring))) :
  versionEntries (objInit cv [] vs) = versionEntries vs.
Proof.
  destruct (objInit_cases _ cv [] vs) as [E|E]; rewrite E; [reflexivity|].
  unfold versionEntries.
  rewrite map_app, concat_app. simpl. now rewrite app_nil_r.
Qed.

Lemma versionEntries_objModify (cv : jsstring)
      (f : Obj (list jsstring) -> Obj (list jsstring))
      (vs : Obj (Obj (list jsstring))) (secs : Obj (list jsstring)) :
  objGet cv vs = Some secs ->
  List.length (versionEntries (objModify cv f vs))
  + List.length (sectionEntries secs)
  = List.length (versionEntries vs) + List.length (sectionEntries (f secs)).
Proof.
  unfold versionEntries.
  induction vs as [|[k w] vs IH]; simpl; [discriminate|].
  destruct (streq k cv); simpl.
  - intros H. injection H as ->. rewrite !length_app. lia.
  - intros H. apply IH in H. rewrite !length_app. lia.
Qed.

Lemma includes_unpublished (text : jsstring) :
  inherited text = false ->
  inherited (if includes UNPUBLISHED_VERSION_NAMES text
             then js "unpublished" else text) = false.
Proof.
  intros H. now destruct (includes UNPUBLISHED_VERSION_NAMES text).
Qed.

Lemma scanInv_enterVersion (text : jsstring) (st : ScanState) :
  inherited text = false ->
  scanInv st -> scanInv (enterVersion text st).
Proof.
  intros Hi [Hc _]. unfold scanInv, enterVersion.
  cbn [changes totalCount versions currentVersion currentSection].
  apply includes_unpublished in Hi.
  set (cv := if includes UNPUBLISHED_VERSION_NAMES text
             then js "unpublished" else text) in *.
  split.
  - now rewrite versionEntries_objInit.
  - pose proof (objGet_objInit_same _ cv [] (versions (changes st)) Hi) as H.
    destruct (objGet cv (objInit cv [] (versions (changes st))))
      as [secs|] eqn:E; [|congruence].
    exists secs. split; [exact E|exact I].
Qed.

Lemma scanInv_enterSection (cv text : jsstring) (st : ScanState) :
  inherited text = false ->
  currentVersion st = Some cv ->
  scanInv st ->
  exists st', enterSection cv text st = Ok st' /\ scanInv st'.
Proof.
  intros Hi Hcv [Hc Hk]. rewrite Hcv in Hk. destruct Hk as (secs & Hg & _).
  unfold enterSection. rewrite (objLookup_own _ _ _ _ Hg).
  eexists. split; [reflexivity|].
  unfold scanInv.
  cbn [changes totalCount versions currentVersion currentSection].
  rewrite Hcv. split.
  - pose proof (versionEntries_objModify cv (objInit text []) _ _ Hg) as H.
    rewrite sectionEntries_objInit in H. lia.
  - exists (objInit text [] secs). split.
    + now apply objGet_objModify_same.
    + now apply objGet_objInit_same.
Qed.

Lemma scanInv_pushItems (cv cs : jsstring) (items : list ListItemToken) :
  forall c,
    let inv c :=
      totalCount c = List.length (versionEntries (versions c))
      /\ exists secs, objGet cv (versions c) = Some secs
                      /\ objGet cs secs <> None in
    inv c -> exists c', pushItems cv cs items c = Ok c' /\ inv c'.
Proof.
  induction items as [|it items IH]; intros c inv H; [now exists c|].
  destruct H as (Hc & secs & Hg & Hk).
  cbn [pushItems]. unfold pushItem. rewrite (objLookup_own _ _ _ _ Hg).
  assert (E : exists l, objGet cs secs = Some l).
  { destruct (objGet cs secs) as [l|]; [now exists l|congruence]. }
  destruct E as [l E]. rewrite (objLookup_own _ _ _ _ E). cbn [andThen].
  apply IH. unfold inv. cbn [totalCount versions]. split.
  - pose proof (versionEntries_objModify cv
                  (objModify cs (fun l => l ++ [itemText it])) _ _ Hg) as H.
    pose proof (Permutation_length
                  (sectionEntries_push cs (itemText it) secs Hk)) as P.
    rewrite length_app in P. simpl in P. lia.
  - exists (objModify cs (fun l => l ++ [itemText it]) secs). split.
    + now apply objGet_objModify_same.
    + now apply objGet_objModify.
Qed.

Lemma scanInv_collectList (cv cs : jsstring) (items : list ListItemToken)
      (st : ScanState) :
  currentVersion st = Some cv ->
  currentSection st = Some cs ->
  scanInv st ->
  exists st', collectList cv cs items st = Ok st' /\ scanInv st'.
Proof.
  intros Hcv Hcs H. unfold scanInv in H. rewrite Hcv, Hcs in H.
  destruct (scanInv_pushItems cv cs items (changes st) H)
    as (c' & E & Hinv).
  unfold collectList. rewrite E. cbn [andThen].
  eexists. split; [reflexivity|].
  unfold scanInv. cbn [changes currentVersion currentSection].
  now rewrite Hcv, Hcs.
Qed.

(** When no heading is named after a member of [Object.prototype], every
    key the loop looks up is an own one: the loop does not throw. *)
Lemma scanInv_scanChanges fromVersion toVersion (toks : list Token) :
  (forall depth text, In (HEADING depth text) toks -> inherited text = false) ->
  forall st,
    scanInv st ->
    exists st',
      scanChanges fromVersion toVersion toks st = Ok st' /\ scanInv st'.
Proof.
  induction toks as [|t toks IH]; intros Hplain st H; [now exists st|].
  assert (Hplain' : forall depth text,
             In (HEADING depth text) toks -> inherited text = false).
  { intros depth text Hin. apply (Hplain depth). now right. }
  specialize (IH Hplain').
  destruct t; cbn [scanChanges]; try (now apply IH).
  - assert (Hi : inherited text = false) by (apply (Hplain depth); now left).
    destruct (Nat.eqb depth VERSION_HEADING_DEPTH).
    + destruct (stopsAt fromVersion toVersion text); [now exists st|].
      apply IH. now apply scanInv_enterVersion.
    + destruct (currentVersion st) as [cv|] eqn:Hcv; [|now apply IH].
      destruct (truthy cv && Nat.eqb depth CHANGE_TYPE_HEADING_DEPTH);
        [|now apply IH].
      destruct (scanInv_enterSection cv text st Hi Hcv H) as (st1 & E & H1).
      rewrite E. cbn [andThen]. now apply IH.
  - destruct (currentVersion st) as [cv|] eqn:Hcv; [|now apply IH].
    destruct (currentSection st) as [cs|] eqn:Hcs; [|now apply IH].
    destruct (truthy cv && truthy cs); [|now apply IH].
    destruct (scanInv_collectList cv cs items st Hcv Hcs H) as (st1 & E & H1).
    rewrite E. cbn [andThen]. now apply IH.
Qed.

Lemma scanInv_initialScan : scanInv initialScan.
Proof.
  split; reflexivity.
Qed.

(** X1: when no heading is named after a member of [Object.prototype],
    [getChanges] returns, whatever its arguments, and [totalCount] is the
    number of entries held by the [versions] object of the result. *)
Theorem getChanges_totalCount_entries :
  forall fromVersion toVersion (toks : Tokens),
    (forall depth text,
        In (HEADING depth text) toks -> inherited text = false) ->
    exists r,
      getChanges fromVersion toVersion toks = Ok r
      /\ totalCount r = List.length (allEntries r).
Proof.
  intros fromVersion toVersion toks Hplain. unfold getChanges.
  destruct (scanInv_scanChanges
              fromVersion
              (match toVersion with
               | Some v => v
               | None => UNPUBLISHED_VERSION_NAME
               end) toks Hplain initialScan scanInv_initialScan)
    as (st' & E & Hc & _).
  rewrite E. cbn [andThen]. exists (changes st'). split; [reflexivity|].
  exact Hc.
Qed.

Lemma getChanges_totalCount_entries_witness :
  exists r,
    getChanges (Some (js "1.0.0")) None
      [HEADING 2 (js "master"); HEADING 3 (js "Bug fixes");
       LIST 0 [createListItemToken (js "a"); createListItemToken (js "b")]
            false;
       HEADING 2 (js "2.0.0"); HEADING 3 (js "Bug fixes");
       LIST 0 [createListItemToken (js "c")] false;
       HEADING 2 (js "1.0.0")]
    = Ok r
    /\ totalCount r = List.length (allEntries r).
Proof.
  apply getChanges_totalCount_entries.
  intros depth text [H|[H|[H|[H|[H|[H|[H|[]]]]]]]];
    try discriminate H; injection H as _ <-; reflexivity.
Defined.

(** With the default arguments the only version key is [unpublished], and
    a section that is not an own key has an inherited name. *)
Lemma onlyUnpublished_scanChanges (P : jsstring -> Prop) (toks : list Token) :
  (forall text, In (HEADING CHANGE_TYPE_HEADING_DEPTH text) toks -> P text) ->
  forall st,
    onlyUnpublished st ->
    (forall cs secs,
        currentSection st = Some cs ->
        versions (changes st) = [(unpublished, secs)] ->
        objGet cs secs <> None \/ (inherited cs = true /\ P cs)) ->
    match scanChanges None UNPUBLISHED_VERSION_NAME toks st with
    | Ok st' => onlyUnpublished st'
    | Err e => e = TypeError /\ exists text, P text /\ inherited text = true
    end.
Proof.
  induction toks as [|t toks IH]; intros HP st H Hs; [exact H|].
  assert (HP' : forall text,
             In (HEADING CHANGE_TYPE_HEADING_DEPTH text) toks -> P text).
  { intros text Hin. apply HP. now right. }
  specialize (IH HP'). pose proof (IH st H Hs) as Hgo.
  destruct t; cbn [scanChanges]; try exact Hgo.
  - destruct (Nat.eqb_spec depth VERSION_HEADING_DEPTH) as [Hd|Hd].
    + destruct (stopsAt None UNPUBLISHED_VERSION_NAME text) eqn:Hstop;
        [exact H|].
      unfold stopsAt in Hstop. simpl in Hstop.
      rewrite andb_true_r in Hstop. apply negb_false_iff, streq_eq in Hstop.
      subst text. apply IH.
      * right. unfold enterVersion. cbn [changes versions currentVersion].
        change (if includes UNPUBLISHED_VERSION_NAMES UNPUBLISHED_VERSION_NAME
                then js "unpublished" else UNPUBLISHED_VERSION_NAME)
          with unpublished.
        destruct H as [[-> _]|(secs & -> & _)].
        -- now exists [].
        -- now exists secs.
      * intros cs secs Hcs. discriminate Hcs.
    + destruct (currentVersion st) as [cv|] eqn:Hcv; [|exact Hgo].
      destruct (Nat.eqb_spec depth CHANGE_TYPE_HEADING_DEPTH) as [->|Hd3];
        [|rewrite andb_false_r; exact Hgo].
      destruct H as [[_ H]|(secs & Hv & Hu)]; [congruence|].
      assert (cv = unpublished) by congruence. subst cv.
      change (truthy unpublished) with true. cbn [andb].
      unfold enterSection. rewrite Hv.
      change (objLookup unpublished [(unpublished, secs)]) with (Own secs).
      cbv iota. cbn [andThen]. apply IH.
      * right. cbn [changes versions currentVersion].
        exists (objInit text [] secs). split; [|exact Hcv].
        cbn [objModify]. now rewrite streq_refl.
      * cbn [changes versions currentSection objModify].
        rewrite streq_refl. intros cs secs' Ecs Esecs.
        injection Ecs as <-. injection Esecs as <-.
        destruct (inherited text) eqn:Hi.
        -- right. split; [reflexivity|]. apply HP. now left.
        -- left. now apply objGet_objInit_same.
  - destruct (currentVersion st) as [cv|] eqn:Hcv; [|exact Hgo].
    destruct (currentSection st) as [cs|] eqn:Hcs; [|exact Hgo].
    destruct (truthy cv && truthy cs); [|exact Hgo].
    destruct H as [[_ H]|(secs & Hv & Hu)]; [congruence|].
    assert (cv = unpublished) by congruence. subst cv.
    unfold collectList.
    destruct (changes st) as [n vs] eqn:Ec. cbn [versions] in Hv. subst vs.
    destruct (Hs cs secs eq_refl eq_refl) as [Hk|[Hi HPcs]].
    + destruct (collect_items cs items n secs Hk) as (secs1 & E1 & Hk1 & _).
      rewrite E1. cbn [andThen]. apply IH.
      * right. exists secs1. split; [reflexivity|exact Hcv].
      * cbn [changes versions currentSection]. intros cs' secs' Ecs Esecs.
        injection Esecs as <-. left. congruence.
    + destruct (objGet cs secs) as [l|] eqn:Eg.
      * assert (Hk : objGet cs secs <> None) by congruence.
        destruct (collect_items cs items n secs Hk)
          as (secs1 & E1 & Hk1 & _).
        rewrite E1. cbn [andThen]. apply IH.
        -- right. exists secs1. split; [reflexivity|exact Hcv].
        -- cbn [changes versions currentSection]. intros cs' secs' Ecs Esecs.
           injection Esecs as <-. left. congruence.
      * destruct items as [|it items].
        -- cbn [pushItems andThen]. apply IH.
           ++ right. exists secs. split; [reflexivity|exact Hcv].
           ++ cbn [changes versions currentSection].
              intros cs' secs' Ecs Esecs.
              injection Esecs as <-. assert (cs' = cs) by congruence.
              subst cs'. now right.
        -- rewrite collect_items_inherited by exact Eg. cbn [andThen].
           split; [reflexivity|]. now exists cs.
Qed.

(** X2: called without arguments, [getChanges] reports nothing but the
    unpublished section: the result has no key at all or the single key
    [unpublished].  It throws nothing but a TypeError, and only when a
    change-type heading is named after a member of [Object.prototype].
    A heading [unpublished] itself is not [toVersion] and ends the scan,
    so a changelog that begins with it gives no changes. *)
Theorem getChanges_default_only_unpublished :
  forall toks : Tokens,
    match getChanges None None toks with
    | Ok r =>
        versions r = [] \/ exists secs, versions r = [(unpublished, secs)]
    | Err e =>
        e = TypeError
        /\ exists text,
             In (HEADING CHANGE_TYPE_HEADING_DEPTH text) toks
             /\ inherited text = true
    end
    /\ getChanges None None (HEADING VERSION_HEADING_DEPTH unpublished :: toks)
       = Ok (mkChanges 0 []).
Proof.
  intros toks. split; [|reflexivity].
  unfold getChanges.
  pose proof (onlyUnpublished_scanChanges
                (fun text => In (HEADING CHANGE_TYPE_HEADING_DEPTH text) toks)
                toks (fun text H => H) initialScan) as H.
  destruct (scanChanges None UNPUBLISHED_VERSION_NAME toks initialScan)
    as [st'|e]; cbn [andThen].
  - destruct H as [[H _]|(s & H & _)].
    + left. split; reflexivity.
    + intros cs secs Hcs. discriminate Hcs.
    + now left.
    + right. now exists s.
  - apply H.
    + left. split; reflexivity.
    + intros cs secs Hcs. discriminate Hcs.
Qed.

(* ------------------------------------------------------------------ *)
(** ** cutOffAsync: the section that is cut off *)

Lemma cutOff_first_heading version text (rest : list Token) :
  cutOff version (HEADING VERSION_HEADING_DEPTH text :: rest)
  = newSectionTokens
    ++ HEADING VERSION_HEADING_DEPTH version
       :: match fst (cleanUp rest) with
          | [] => [PARAGRAPH VERSION_EMPTY_PARAGRAPH_TEXT]
          | kept => kept
          end
    ++ snd (cleanUp rest).
Proof.
  unfold cutOff. rewrite findIndex_isVersionToken.
  cbn [isVersionToken Nat.eqb VERSION_HEADING_DEPTH falsy andb orb].
  cbn [Z.eqb Z.to_nat updateAt setText skipn firstn].
  destruct (cleanUp rest) as [kept remaining]. cbn [fst snd].
  destruct kept as [|k kept]; reflexivity.
Qed.

Lemma cleanUp_spec (todo : list Token) :
  exists sec,
    todo = sec ++ snd (cleanUp todo)
    /\ Forall (fun t => isVersionToken t Undefined = false) sec
    /\ match snd (cleanUp todo) with
       | [] => True
       | t :: _ => isVersionToken t Undefined = true
       end
    /\ filter notChangeType (fst (cleanUp todo)) = filter notChangeType sec
    /\ (forall t, In t (fst (cleanUp todo)) -> In t sec)
    /\ wellFilled (fst (cleanUp todo)) = true.
Proof.
  induction todo as [|t rest IH].
  - exists []. simpl. repeat split; auto.
  - destruct IH as (sec & Hsplit & Hsec & Hrem & Hfilter & Hin & Hwf).
    assert (Hcons : forall x, In x sec -> In x (t :: sec)) by (now right).
    cbn [cleanUp].
    destruct (isVersionToken t Undefined) eqn:Hv.
    { exists []. cbn [fst snd]. repeat split; auto; simpl; tauto. }
    destruct (isChangeTypeToken t Undefined) eqn:Hc; cbn [andb].
    + destruct rest as [|n rest'].
      { exists [t]. cbn [fst snd cleanUp]. repeat split; auto.
        - cbn [filter]. unfold notChangeType. now rewrite Hc.
        - simpl. tauto. }
      destruct (isChangeTypeToken n Undefined
                || isVersionToken n Undefined) eqn:Hn.
      { exists (t :: sec). repeat split; auto.
        - simpl. now f_equal.
        - cbn [filter]. unfold notChangeType at 2. now rewrite Hc. }
      apply orb_false_iff in Hn as [Hnc Hnv].
      cbn [cleanUp] in *. rewrite Hnv, Hnc in *. cbn [andb] in *.
      destruct (cleanUp rest') as [k r]. cbn [fst snd] in *.
      exists (t :: sec). repeat split; auto.
      * simpl. now f_equal.
      * cbn [filter] in Hfilter |- *. now rewrite Hfilter.
      * intros x [<-|Hx]; [now left|right; now apply Hin].
      * cbn [wellFilled] in Hwf |- *. rewrite Hnc in Hwf.
        rewrite Hc, Hnc, Hnv. exact Hwf.
    + destruct (cleanUp rest) as [kept remaining]. cbn [fst snd] in *.
      exists (t :: sec). repeat split; auto.
      * simpl. now f_equal.
      * cbn [filter]. now rewrite Hfilter.
      * intros x [<-|Hx]; [now left|right; now apply Hin].
      * cbn [wellFilled]. now rewrite Hc.
Qed.

(** X3: when the first token is a version heading, [cutOff] renames it,
    puts the new section in front, and leaves everything from the next
    version heading on as it was.  Of the tokens in between it removes
    nothing but change-type headings; the ones it keeps are each directly
    followed by a token that is no change-type or version heading, and
    when none is kept the placeholder paragraph stands in. *)
Theorem cutOff_cleans_the_section :
  forall version text (rest : list Token),
  exists sec kept remaining,
    rest = sec ++ remaining
    /\ Forall (fun t => isVersionToken t Undefined = false) sec
    /\ match remaining with
       | [] => True
       | t :: _ => isVersionToken t Undefined = true
       end
    /\ cutOff version (HEADING VERSION_HEADING_DEPTH text :: rest)
       = newSectionTokens
         ++ HEADING VERSION_HEADING_DEPTH version
            :: match kept with
               | [] => [PARAGRAPH VERSION_EMPTY_PARAGRAPH_TEXT]
               | _ => kept
               end
         ++ remaining
    /\ filter notChangeType kept = filter notChangeType sec
    /\ wellFilled kept = true.
Proof.
  intros version text rest.
  destruct (cleanUp_spec rest) as (sec & Hsplit & Hsec & Hrem & Hf & _ & Hwf).
  exists sec, (fst (cleanUp rest)), (snd (cleanUp rest)).
  repeat split; auto.
  rewrite cutOff_first_heading. now destruct (fst (cleanUp rest)).
Qed.

Lemma getVersions_app (a b : list Token) :
  getVersions (a ++ b) = getVersions a ++ getVersions b.
Proof.
  unfold getVersions. now rewrite filter_app, map_app.
Qed.

Lemma getVersions_cons (t : Token) (l : list Token) :
  getVersions (t :: l) = getVersions [t] ++ getVersions l.
Proof.
  apply (getVersions_app [t] l).
Qed.

Lemma isVersionHeading_isVersionToken (t : Token) :
  isVersionHeading t = isVersionToken t Undefined.
Proof.
  destruct t; simpl; try reflexivity. now rewrite andb_true_r.
Qed.

Lemma getVersions_none (l : list Token) :
  Forall (fun t => isVersionToken t Undefined = false) l ->
  getVersions l = [].
Proof.
  intros H. unfold getVersions.
  induction H as [|t l Ht _ IH]; [reflexivity|].
  cbn [filter]. now rewrite isVersionHeading_isVersionToken, Ht.
Qed.

(** X4: the version headings of what [cutOff] writes.  When the first
    token is a version heading, they are [master], then the new version,
    then the versions that followed, in their order; otherwise none is
    renamed and [master] comes in where the new section is spliced, in
    front of the last token. *)
Theorem getVersions_cutOff :
  forall version (toks : Tokens),
    match toks with
    | HEADING depth text :: rest =>
        if Nat.eqb depth VERSION_HEADING_DEPTH
        then getVersions (cutOff version toks)
             = UNPUBLISHED_VERSION_NAME :: version :: getVersions rest
        else getVersions (cutOff version toks)
             = getVersions (firstn (List.length toks - 1) toks)
               ++ UNPUBLISHED_VERSION_NAME
                  :: getVersions (skipn (List.length toks - 1) toks)
    | _ =>
        getVersions (cutOff version toks)
        = getVersions (firstn (List.length toks - 1) toks)
          ++ UNPUBLISHED_VERSION_NAME
             :: getVersions (skipn (List.length toks - 1) toks)
    end.
Proof.
  intros version toks.
  assert (Hother :
            match toks with
            | t :: _ => isVersionToken t Undefined = false
            | [] => True
            end ->
            getVersions (cutOff version toks)
            = getVersions (firstn (List.length toks - 1) toks)
              ++ UNPUBLISHED_VERSION_NAME
                 :: getVersions (skipn (List.length toks - 1) toks)).
  { intros H. rewrite cutOff_not_found by exact H.
    now rewrite !getVersions_app. }
  destruct toks as [|t rest]; [now apply Hother|].
  destruct t; try (now apply Hother).
  destruct (Nat.eqb_spec depth VERSION_HEADING_DEPTH) as [->|Hd].
  - rewrite cutOff_first_heading.
    destruct (cleanUp_spec rest) as (sec & Hsplit & Hsec & _ & _ & Hin & _).
    match goal with
    | |- context [HEADING _ version :: ?m ++ _] => set (mid := m)
    end.
    assert (Hk : getVersions mid = []).
    { subst mid.
      destruct (fst (cleanUp rest)) as [|k kept] eqn:E; [reflexivity|].
      apply getVersions_none. apply Forall_forall. intros x Hx.
      rewrite Forall_forall in Hsec. apply Hsec. now apply Hin. }
    assert (Hrest : getVersions rest = getVersions (snd (cleanUp rest))).
    { rewrite Hsplit at 1.
      now rewrite getVersions_app, (getVersions_none sec Hsec). }
    change (newSectionTokens
              ++ HEADING VERSION_HEADING_DEPTH version
                 :: mid ++ snd (cleanUp rest))
      with (newSectionTokens
              ++ [HEADING VERSION_HEADING_DEPTH version]
              ++ mid ++ snd (cleanUp rest)).
    rewrite !getVersions_app, Hk, Hrest. reflexivity.
  - apply Hother. simpl.
    replace (Nat.eqb depth VERSION_HEADING_DEPTH) with false
      by (symmetry; now apply Nat.eqb_neq).
    reflexivity.
Qed.

(* ------------------------------------------------------------------ *)
(** ** insertEntriesAsync: the list that follows the heading *)

Lemma skipn_length_app (A : Type) (a b : list A) :
  skipn (List.length a) (a ++ b) = b.
Proof.
  induction a as [|x a IH]; [reflexivity|exact IH].
Qed.

Lemma updateAt_app (A : Type) (f : A -> A) (a : list A) (x : A) (b : list A) :
  updateAt (List.length a) f (a ++ x :: b) = a ++ f x :: b.
Proof.
  induction a as [|y a IH]; [reflexivity|]. simpl. now rewrite IH.
Qed.

Lemma updateAtR_app (A : Type) (f : A -> Result A) (a : list A) (x : A)
      (b : list A) :
  updateAtR (List.length a) f (a ++ x :: b)
  = match f x with
    | Ok y => Ok (a ++ y :: b)
    | Err e => Err e
    end.
Proof.
  induction a as [|y a IH]; [reflexivity|]. simpl. rewrite IH.
  now destruct (f x).
Qed.

Lemma isChangeTypeToken_not_version (t : Token) (a : JSArg) :
  isChangeTypeToken t a = true -> isVersionToken t Undefined = false.
Proof.
  destruct t; simpl; try reflexivity.
  intros H. apply andb_true_iff in H as [H _].
  apply Nat.eqb_eq in H. now subst.
Qed.

(** When the list directly follows the heading that the scan reaches,
    the call comes down to what lines 257-282 do to that list. *)
Lemma insertEntries_adjacent version type group entries before d items
      ordered after :
  reachesHeading version type before ->
  insertEntries version type group entries
                (before ++ LIST d items ordered :: after)
  = match fillList group entries (LIST d items ordered) with
    | Ok list' => Ok (before ++ list' :: after)
    | Err e => Err e
    end.
Proof.
  intros (pre & vh & mid & ct & -> & Hpre & Hvh & Hmid & Hct).
  set (toks := (pre ++ vh :: mid ++ [ct]) ++ LIST d items ordered :: after).
  assert (E : toks = pre ++ vh :: (mid ++ ct :: LIST d items ordered :: after)).
  { unfold toks. rewrite <- !app_assoc. simpl. now rewrite <- app_assoc. }
  assert (Hs : findIndex (fun token _ => isVersionToken token (Str version))
                         toks = Z.of_nat (List.length pre)).
  { rewrite E. unfold findIndex.
    now rewrite (findIndexFrom_found _ (fun t => isVersionToken t (Str version))
                   pre vh _ 0 Hpre Hvh). }
  rewrite (insertEntries_found _ type group entries _ _ Hs).
  assert (Hskip : skipn (S (List.length pre)) toks
                  = mid ++ ct :: LIST d items ordered :: after).
  { rewrite E.
    change (pre ++ vh :: mid ++ ct :: LIST d items ordered :: after)
      with (pre ++ [vh] ++ mid ++ ct :: LIST d items ordered :: after).
    rewrite app_assoc.
    replace (S (List.length pre)) with (List.length (pre ++ [vh]))
      by (rewrite length_app; simpl; lia).
    apply skipn_length_app. }
  rewrite Hskip, scanSection_skip by exact Hmid.
  cbn [scanSection].
  rewrite (isChangeTypeToken_not_version ct _ Hct), Hct.
  rewrite insertUnder_adjacent_list.
  replace (S (S (List.length pre) + List.length mid))
    with (List.length (pre ++ vh :: mid ++ [ct]))
    by (rewrite !length_app; simpl; rewrite length_app; simpl; lia).
  unfold toks. apply updateAtR_app.
Qed.

Lemma fold_pushEntry group (entries : list Entry) :
  forall d items ordered,
    fold_left (pushEntry group) entries (LIST d items ordered)
    = match entries with
      | [] => LIST d items ordered
      | _ :: _ =>
          LIST (if truthyOpt group then 1 else 0)
               (items ++ map entryItem entries) ordered
      end.
Proof.
  induction entries as [|e entries IH]; intros d items ordered; [reflexivity|].
  cbn [fold_left pushEntry]. rewrite IH.
  destruct entries; cbn [map]; now rewrite <- ?app_assoc.
Qed.

Lemma pushEntries_LIST group (entries : list Entry) d items ordered :
  entries <> [] ->
  pushEntries group entries (LIST d items ordered)
  = LIST (if truthyOpt group then 1 else 0)
         (items ++ map entryItem entries) ordered.
Proof.
  intros H. unfold pushEntries. rewrite fold_pushEntry.
  now destruct entries.
Qed.

(** X5: without a group, when a list directly follows the change-type
    heading that the scan reaches, the entries are appended to that list
    in their order, its depth is set to 0, and no other token changes. *)
Theorem insertEntries_appends_to_list :
  forall version type group entries before d items ordered after,
    reachesHeading version type before ->
    entries <> [] ->
    truthyOpt group = false ->
    insertEntries version type group entries
                  (before ++ LIST d items ordered :: after)
    = Ok (before
          ++ LIST 0 (items ++ map entryItem entries) ordered :: after).
Proof.
  intros version type group entries before d items ordered after Hr He Hg.
  rewrite insertEntries_adjacent by exact Hr.
  assert (E : fillList group entries (LIST d items ordered)
              = Ok (pushEntries group entries (LIST d items ordered))).
  { destruct group as [g|]; [|reflexivity].
    simpl in Hg. cbn [fillList]. now rewrite Hg. }
  rewrite E, pushEntries_LIST by exact He. now rewrite Hg.
Qed.

Lemma insertEntries_appends_to_list_witness :
  let before := [HEADING 1 (js "Changelog"); HEADING 2 (js "master");
                 HEADING 3 (js "New features"); PARAGRAPH (js "None.");
                 HEADING 3 (js "Bug fixes")] in
  let a := createListItemToken (js "a") in
  let entries := [mkEntry (js "b") None None; mkEntry (js "c") (Some [7]) None]
  in
  insertEntries (js "master") (js "Bug fixes") None entries
                (before ++ LIST 1 [a] false :: [HEADING 2 (js "1.0.0")])
  = Ok (before
        ++ LIST 0 ([a] ++ map entryItem entries) false
           :: [HEADING 2 (js "1.0.0")]).
Proof.
  intros before a entries.
  apply (insertEntries_appends_to_list
           (js "master") (js "Bug fixes") None entries before 1 [a] false
           [HEADING 2 (js "1.0.0")]).
  - exists [HEADING 1 (js "Changelog")], (HEADING 2 (js "master")),
      [HEADING 3 (js "New features"); PARAGRAPH (js "None.")],
      (HEADING 3 (js "Bug fixes")).
    repeat split; repeat constructor.
  - discriminate.
  - reflexivity.
Defined.

(* ------------------------------------------------------------------ *)
(** ** insertEntriesAsync: groups *)

Lemma isGroupToken_true (item : ListItemToken) (g : jsstring) :
  isGroupToken item g = Ok true ->
  exists text rest,
    item = ListItem GROUP_LIST_ITEM_DEPTH text (TEXT (getGroupLabel g) :: rest).
Proof.
  destruct item as [d text toks]. simpl.
  destruct (Nat.eqb_spec d GROUP_LIST_ITEM_DEPTH) as [->|_]; [|discriminate].
  destruct toks as [|[] rest]; try discriminate.
  intros H. injection H as H. apply streq_eq in H. subst. now exists text, rest.
Qed.

Lemma findGroupFrom_found (g : jsstring) (pre : list ListItemToken)
      (x : ListItemToken) (post : list ListItemToken) (i : nat) :
  Forall (fun it => isGroupToken it g = Ok false) pre ->
  isGroupToken x g = Ok true ->
  findGroupFrom (pre ++ x :: post) g i = Ok (Some (i + List.length pre)).
Proof.
  intros H Hx; revert i; induction H as [|y pre Hy _ IH]; intros i; simpl.
  - rewrite Hx. do 2 f_equal. lia.
  - rewrite Hy, IH. do 2 f_equal. lia.
Qed.

Lemma findGroupFrom_error (g : jsstring) (pre : list ListItemToken)
      (x : ListItemToken) (post : list ListItemToken) (i : nat) (e : Error) :
  Forall (fun it => isGroupToken it g = Ok false) pre ->
  isGroupToken x g = Err e ->
  findGroupFrom (pre ++ x :: post) g i = Err e.
Proof.
  intros H Hx; revert i; induction H as [|y pre Hy _ IH]; intros i; simpl.
  - now rewrite Hx.
  - now rewrite Hy, IH.
Qed.

Lemma findGroupFrom_some (g : jsstring) (items : list ListItemToken) :
  forall i gi,
    findGroupFrom items g i = Ok (Some gi) ->
    exists pre x post,
      items = pre ++ x :: post
      /\ Forall (fun it => isGroupToken it g = Ok false) pre
      /\ isGroupToken x g = Ok true
      /\ gi = i + List.length pre.
Proof.
  induction items as [|y items IH]; intros i gi; simpl; [discriminate|].
  destruct (isGroupToken y g) as [[|]|e] eqn:Hy; [| |discriminate].
  - intros H. injection H as <-. exists [], y, items.
    repeat split; auto; simpl; lia.
  - intros H. apply IH in H as (pre & x & post & -> & Hpre & Hx & ->).
    exists (y :: pre), x, post. repeat split; auto; simpl; lia.
Qed.

Lemma findGroupFrom_none (g : jsstring) (items : list ListItemToken) :
  forall i,
    findGroupFrom items g i = Ok None ->
    Forall (fun it => isGroupToken it g = Ok false) items.
Proof.
  induction items as [|y items IH]; intros i; simpl; [constructor|].
  destruct (isGroupToken y g) as [[|]|e] eqn:Hy; try discriminate.
  intros H. constructor; [exact Hy|]. now apply (IH (S i)).
Qed.

Lemma findListFrom_spec (toks : list Token) :
  forall i,
    match findListFrom toks i with
    | Some k =>
        exists pre d items ordered post,
          toks = pre ++ LIST d items ordered :: post
          /\ Forall (fun t => isList t = false) pre
          /\ k = i + List.length pre
    | None => Forall (fun t => isList t = false) toks
    end.
Proof.
  induction toks as [|t toks IH]; intros i; [constructor|].
  destruct t;
    try (cbn [findListFrom]; specialize (IH (S i));
         destruct (findListFrom toks (S i)) as [k|];
         [destruct IH as (pre & d & items & o & post & -> & Hpre & ->);
          eexists (_ :: pre), d, items, o, post;
          repeat split; [now constructor|simpl; lia]
         |now constructor]).
  cbn [findListFrom]. exists [], depth, items, ordered, toks.
  repeat split; [constructor|simpl; lia].
Qed.

Lemma find_isList_app (pre : list Token) (x : Token) (post : list Token) :
  Forall (fun t => isList t = false) pre ->
  isList x = true ->
  List.find isList (pre ++ x :: post) = Some x.
Proof.
  intros H Hx. induction H as [|y pre Hy _ IH]; simpl.
  - now rewrite Hx.
  - now rewrite Hy.
Qed.

(** What happens to the item of a group: it stays the item of that
    group, and its nested list gains the entries at its end. *)
Lemma fillGroupItem_spec (g : jsstring) (entries : list Entry)
      (item : ListItemToken) :
  g <> [] ->
  entries <> [] ->
  isGroupToken item g = Ok true ->
  isGroupToken (fillGroupItem (Some g) entries item) g = Ok true
  /\ groupEntries (fillGroupItem (Some g) entries item)
     = groupEntries item ++ map entryItem entries.
Proof.
  intros Hg He Hitem.
  apply isGroupToken_true in Hitem as (text & rest & ->).
  unfold fillGroupItem.
  pose proof (findListFrom_spec (TEXT (getGroupLabel g) :: rest) 0) as H.
  destruct (findListFrom (TEXT (getGroupLabel g) :: rest) 0) as [k|].
  - destruct H as (pre & d & items & o & post & E & Hpre & ->).
    rewrite E. cbn [Nat.add]. rewrite updateAt_app.
    rewrite pushEntries_LIST by exact He.
    destruct pre as [|p pre]; [discriminate|].
    injection E as <- _. split.
    + simpl. now rewrite streq_refl.
    + unfold groupEntries.
      rewrite !find_isList_app by (assumption || reflexivity).
      reflexivity.
  - split.
    + simpl. now rewrite streq_refl.
    + unfold groupEntries, createListToken.
      rewrite pushEntries_LIST by exact He.
      rewrite find_isList_app by (assumption || reflexivity).
      replace (List.find isList (TEXT (getGroupLabel g) :: rest)) with (@None Token).
      * reflexivity.
      * symmetry. clear -H. induction H as [|y l Hy _ IH]; simpl;
          [reflexivity|now rewrite Hy].
Qed.

(** X6: with a group that the list does not hold yet, an item labelled
    with the decorated name of the group is added at the end of the
    list; it holds a nested list of depth 1 with exactly the entries, in
    their order; and the group is found at that position afterwards. *)
Theorem insertEntries_creates_group :
  forall version type g entries before d items ordered after,
    reachesHeading version type before ->
    entries <> [] ->
    g <> [] ->
    findGroup items g = Ok None ->
    let item := ListItem 0 (getGroupLabel g)
                  [TEXT (getGroupLabel g);
                   LIST 1 (map entryItem entries) false] in
    insertEntries version type (Some g) entries
                  (before ++ LIST d items ordered :: after)
    = Ok (before ++ LIST d (items ++ [item]) ordered :: after)
    /\ findGroup (items ++ [item]) g = Ok (Some (List.length items)).
Proof.
  intros version type g entries before d items ordered after Hr He Hg Hf item.
  split.
  - rewrite insertEntries_adjacent by exact Hr.
    cbn [fillList]. rewrite Hf.
    replace (truthy g) with true by (now destruct g).
    unfold fillGroupItem, createListItemToken, createTextToken,
      createListToken.
    cbn [findListFrom]. rewrite pushEntries_LIST by exact He.
    cbn [truthyOpt]. replace (truthy g) with true by (now destruct g).
    reflexivity.
  - unfold findGroup.
    rewrite (findGroupFrom_found g items item [] 0).
    + reflexivity.
    + exact (findGroupFrom_none g items 0 Hf).
    + simpl. now rewrite streq_refl.
Qed.

Lemma insertEntries_creates_group_witness :
  let before := [HEADING 2 (js "master"); HEADING 3 (js "Bug fixes")] in
  let other := ListItem 0 (js "**`expo-bar`**")
                 [TEXT (js "**`expo-bar`**");
                  LIST 1 [createListItemToken (js "old")] false] in
  let entries := [mkEntry (js "Fixed X") None None] in
  let item := ListItem 0 (getGroupLabel (js "expo-foo"))
                [TEXT (getGroupLabel (js "expo-foo"));
                 LIST 1 (map entryItem entries) false] in
  insertEntries (js "master") (js "Bug fixes") (Some (js "expo-foo")) entries
                (before ++ LIST 0 [other] false :: [])
  = Ok (before ++ LIST 0 ([other] ++ [item]) false :: [])
  /\ findGroup ([other] ++ [item]) (js "expo-foo") = Ok (Some 1).
Proof.
  intros before other entries item.
  apply (insertEntries_creates_group
           (js "master") (js "Bug fixes") (js "expo-foo") entries before
           0 [other] false []).
  - exists [], (HEADING 2 (js "master")), [], (HEADING 3 (js "Bug fixes")).
    repeat split; repeat constructor.
  - discriminate.
  - discriminate.
  - reflexivity.
Defined.

(** X7: with a group that the list already holds, no item is added: the
    item of the group is the only one that changes, the group is still
    found at its position, and the first list nested in it gains exactly
    the entries, at its end and in their order. *)
Theorem insertEntries_reuses_group :
  forall version type g entries before d items ordered after gi,
    reachesHeading version type before ->
    entries <> [] ->
    g <> [] ->
    findGroup items g = Ok (Some gi) ->
    exists item item',
      nth_error items gi = Some item
      /\ insertEntries version type (Some g) entries
                       (before ++ LIST d items ordered :: after)
         = Ok (before
               ++ LIST d (updateAt gi (fun _ => item') items) ordered
                  :: after)
      /\ findGroup (updateAt gi (fun _ => item') items) g = Ok (Some gi)
      /\ groupEntries item' = groupEntries item ++ map entryItem entries.
Proof.
  intros version type g entries before d items ordered after gi
         Hr He Hg Hf.
  destruct (findGroupFrom_some g items 0 gi Hf)
    as (pre & x & post & -> & Hpre & Hx & ->).
  cbn [Nat.add] in *.
  destruct (fillGroupItem_spec g entries x Hg He Hx) as [Hx' Hentries].
  exists x, (fillGroupItem (Some g) entries x).
  rewrite !updateAt_app. repeat split.
  - rewrite nth_error_app2 by lia. now rewrite Nat.sub_diag.
  - rewrite insertEntries_adjacent by exact Hr.
    cbn [fillList]. rewrite Hf.
    replace (truthy g) with true by (now destruct g).
    cbn [Nat.add]. now rewrite updateAt_app.
  - unfold findGroup. now rewrite findGroupFrom_found.
  - exact Hentries.
Qed.

Lemma insertEntries_reuses_group_witness :
  let before := [HEADING 2 (js "master"); HEADING 3 (js "Bug fixes")] in
  let label := getGroupLabel (js "expo-foo") in
  let old := createListItemToken (js "old") in
  let plain := createListItemToken (js "plain") in
  let group := ListItem 0 label [TEXT label; LIST 1 [old] false] in
  let entries := [mkEntry (js "Fixed X") None None] in
  exists item item',
    nth_error [plain; group] 1 = Some item
    /\ insertEntries (js "master") (js "Bug fixes") (Some (js "expo-foo"))
                     entries (before ++ LIST 0 [plain; group] false :: [])
       = Ok (before
             ++ LIST 0 (updateAt 1 (fun _ => item') [plain; group]) false
                :: [])
    /\ findGroup (updateAt 1 (fun _ => item') [plain; group]) (js "expo-foo")
       = Ok (Some 1)
    /\ groupEntries item' = groupEntries item ++ map entryItem entries.
Proof.
  intros before label old plain group entries.
  apply (insertEntries_reuses_group
           (js "master") (js "Bug fixes") (js "expo-foo") entries before
           0 [plain; group] false [] 1).
  - exists [], (HEADING 2 (js "master")), [], (HEADING 3 (js "Bug fixes")).
    repeat split; repeat constructor.
  - discriminate.
  - discriminate.
  - reflexivity.
Defined.

(** X8: with a group, an item of depth 0 without children that comes
    before the item of the group makes [isGroupToken] read the [type] of
    a missing first child: the call throws, and neither the tokens nor
    the file change. *)
Theorem insertEntriesAsync_group_type_error :
  forall lexer version type g entries c toks c'
         before d ipre text ipost ordered after,
    getTokensAsync lexer c = (Ok toks, c') ->
    toks = before
           ++ LIST d (ipre ++ ListItem GROUP_LIST_ITEM_DEPTH text [] :: ipost)
                   ordered
              :: after ->
    reachesHeading version type before ->
    entries <> [] ->
    g <> [] ->
    Forall (fun it => isGroupToken it g = Ok false) ipre ->
    insertEntriesAsync lexer version type (Some g) entries c
    = (Err TypeError, c').
Proof.
  intros lexer version type g entries c toks c' before d ipre text ipost
         ordered after Hload -> Hr He Hg Hpre.
  rewrite (insertEntriesAsync_loaded lexer version type (Some g) entries
             c _ c' He Hload).
  rewrite insertEntries_adjacent by exact Hr.
  cbn [fillList]. replace (truthy g) with true by (now destruct g).
  unfold findGroup.
  rewrite (findGroupFrom_error g ipre _ ipost 0 TypeError Hpre);
    reflexivity.
Qed.

Lemma insertEntriesAsync_group_type_error_witness :
  let before := [HEADING 2 (js "master"); HEADING 3 (js "Bug fixes")] in
  let toks := before
              ++ LIST 0 ([createListItemToken (js "plain")]
                         ++ ListItem GROUP_LIST_ITEM_DEPTH [] []
                            :: [createListItemToken (js "last")]) false
                 :: [] in
  let c := mkChangelog (Some toks) (written toks) in
  insertEntriesAsync noLexer (js "master") (js "Bug fixes")
                     (Some (js "expo-foo")) [mkEntry (js "Fixed X") None None]
                     c
  = (Err TypeError, c).
Proof.
  intros before toks c.
  apply (insertEntriesAsync_group_type_error
           noLexer (js "master") (js "Bug fixes") (js "expo-foo")
           [mkEntry (js "Fixed X") None None] c toks c before 0
           [createListItemToken (js "plain")] []
           [createListItemToken (js "last")] false []).
  - reflexivity.
  - reflexivity.
  - exists [], (HEADING 2 (js "master")), [], (HEADING 3 (js "Bug fixes")).
    repeat split; repeat constructor.
  - discriminate.
  - discriminate.
  - repeat constructor.
Defined.

(* ------------------------------------------------------------------ *)
(** ** insertEntriesAsync: what it leaves alone *)

Lemma fillList_kind group entries (x y : Token) :
  fillList group entries x = Ok y ->
  isList y = isList x /\ (isList x = false -> y = x).
Proof.
  destruct x; simpl; try (intros H; injection H as <-; auto).
  assert (Hp : forall d l o,
             isList (pushEntries group entries (LIST d l o)) = true).
  { intros d l o. unfold pushEntries. rewrite fold_pushEntry.
    now destruct entries. }
  destruct group as [g|].
  - destruct (truthy g).
    + destruct (findGroup items g) as [[gi|]|e]; try discriminate;
        intros H; injection H as <-; split; auto; discriminate.
    + intros H. injection H as <-. rewrite Hp. split; auto; discriminate.
  - intros H. injection H as <-. rewrite Hp. split; auto; discriminate.
Qed.

Lemma updateAtR_frame (f : Token -> Result Token) :
  (forall x y, f x = Ok y ->
               isList y = isList x /\ (isList x = false -> y = x)) ->
  forall l j r,
    updateAtR j f l = Ok r ->
    filter notList r = filter notList l /\ List.length r = List.length l.
Proof.
  intros Hf. induction l as [|x l IH]; intros j r.
  - destruct j; simpl; intros H; injection H as <-; auto.
  - destruct j as [|j]; simpl.
    + destruct (f x) as [y|] eqn:E; [|discriminate].
      intros H. injection H as <-. destruct (Hf x y E) as [Hk Hsame].
      split; [|reflexivity]. cbn [filter]. unfold notList. rewrite Hk.
      destruct (isList x) eqn:Hx; [reflexivity|].
      now rewrite (Hsame eq_refl).
    + destruct (updateAtR j f l) as [r'|] eqn:E; [|discriminate].
      intros H. injection H as <-. destruct (IH j r' E) as [H1 H2].
      split; [|simpl; now rewrite H2]. cbn [filter]. now rewrite H1.
Qed.

Lemma splice_insert_list (j : nat) (x : Token) (l : list Token) :
  isList x = true ->
  filter notList (splice (Z.of_nat j) 0 [x] l) = filter notList l
  /\ List.length (splice (Z.of_nat j) 0 [x] l) = S (List.length l).
Proof.
  intros Hx. unfold splice, spliceStart.
  replace (Z.of_nat j <? 0)%Z with false by (symmetry; apply Z.ltb_ge; lia).
  rewrite Nat2Z.id. cbn [skipn app].
  set (s := Nat.min j (List.length l)).
  split.
  - rewrite filter_app. cbn [filter]. unfold notList at 2. rewrite Hx.
    cbn [negb]. rewrite <- filter_app. now rewrite firstn_skipn.
  - rewrite length_app. cbn [List.length].
    rewrite <- (firstn_skipn s l) at 3. rewrite length_app. lia.
Qed.

Lemma insertUnder_frame toks group entries ct rest i toks' :
  insertUnder toks group entries ct rest i = Ok toks' ->
  filter notList toks' = filter notList toks
  /\ (List.length toks' = List.length toks
      \/ List.length toks' = S (List.length toks)).
Proof.
  unfold insertUnder.
  destruct (findSectionList (headingDepth ct) rest (S i)) as [j found].
  intros H.
  apply (updateAtR_frame _ (fillList_kind group entries)) in H as [H1 H2].
  destruct found.
  - split; [exact H1|now left].
  - destruct (splice_insert_list j (createListToken None) toks eq_refl)
      as [H3 H4].
    split; [now rewrite H1|right; now rewrite H2].
Qed.

Lemma scanSection_frame toks type group entries (suffix : list Token) :
  forall i toks',
    scanSection toks type group entries suffix i = Ok toks' ->
    filter notList toks' = filter notList toks
    /\ (List.length toks' = List.length toks
        \/ List.length toks' = S (List.length toks)).
Proof.
  induction suffix as [|t suffix IH]; intros i toks'; simpl; [discriminate|].
  destruct (isVersionToken t Undefined).
  - intros H. injection H as <-. auto.
  - destruct (isChangeTypeToken t (Str type)).
    + apply insertUnder_frame.
    + apply IH.
Qed.

Lemma getVersions_notList (l : list Token) :
  getVersions (filter notList l) = getVersions l.
Proof.
  unfold getVersions. f_equal.
  induction l as [|t l IH]; [reflexivity|].
  destruct t; cbn [filter notList isList negb isVersionHeading];
    try exact IH.
  destruct (Nat.eqb depth VERSION_HEADING_DEPTH); [now f_equal|exact IH].
Qed.

(** X9: a successful [insertEntries] never touches a token that is not a
    list: the other tokens are the same, in the same order, so the
    versions of the changelog are unchanged; and at most one token, a
    list, is added. *)
Theorem insertEntries_keeps_other_tokens :
  forall version type group entries (toks toks' : Tokens),
    insertEntries version type group entries toks = Ok toks' ->
    filter notList toks' = filter notList toks
    /\ getVersions toks' = getVersions toks
    /\ (List.length toks' = List.length toks
        \/ List.length toks' = S (List.length toks)).
Proof.
  intros version type group entries toks toks'. unfold insertEntries.
  destruct (_ =? -1)%Z; [discriminate|].
  intros H. apply scanSection_frame in H as [H1 H2].
  repeat split; auto.
  now rewrite <- (getVersions_notList toks'), H1, getVersions_notList.
Qed.

Lemma insertEntries_keeps_other_tokens_witness :
  let toks := [HEADING 1 (js "Changelog"); HEADING 2 (js "master");
               HEADING 3 (js "Bug fixes"); HEADING 2 (js "1.0.0");
               HEADING 3 (js "Bug fixes");
               LIST 0 [createListItemToken (js "old")] false] in
  let toks' := [HEADING 1 (js "Changelog"); HEADING 2 (js "master");
                HEADING 3 (js "Bug fixes");
                LIST 0 [createListItemToken (js "Fixed X")] false;
                HEADING 2 (js "1.0.0");
                HEADING 3 (js "Bug fixes");
                LIST 0 [createListItemToken (js "old")] false] in
  filter notList toks' = filter notList toks
  /\ getVersions toks' = getVersions toks
  /\ (List.length toks' = List.length toks
      \/ List.length toks' = S (List.length toks)).
Proof.
  intros toks toks'.
  apply (insertEntries_keeps_other_tokens
           (js "master") (js "Bug fixes") None
           [mkEntry (js "Fixed X") None None] toks toks').
  reflexivity.
Defined.

(* ------------------------------------------------------------------ *)
(** ** lexify: the depths it assigns *)

Lemma in_map_fixItem (d : nat) (it : ListItemToken)
      (items : list ListItemToken) :
  In it (map (fixItem d) items) ->
  exists text toks, it = ListItem d text (map (fixToken (S d)) toks).
Proof.
  intros H. apply in_map_iff in H as ([d0 text toks] & <- & _).
  now exists text, toks.
Qed.

Lemma in_map_fixToken_LIST (d d' : nat) (items : list ListItemToken) ordered
      (l : list Token) :
  In (LIST d' items ordered) (map (fixToken d) l) ->
  d' = d /\ exists items0, items = map (fixItem d) items0.
Proof.
  intros H. apply in_map_iff in H as (t & E & _).
  destruct t; try discriminate.
  rewrite fixToken_LIST in E. injection E as <- <- _.
  split; [reflexivity|now eexists].
Qed.

(** X10: whatever the tokenizer returns, in the tokens that [lexify]
    gives every top-level list has depth 0, its items have depth 0, and
    the lists among their children have depth 1; fixing the tokens
    again changes nothing. *)
Theorem lexify_normalises_depths :
  forall (lexer : jsstring -> Tokens) (text : jsstring),
    recursivelyFixTokens (lexify lexer text) 0 = lexify lexer text
    /\ forall d items ordered,
         In (LIST d items ordered) (lexify lexer text) ->
         d = 0
         /\ forall di itext toks,
              In (ListItem di itext toks) items ->
              di = 0
              /\ forall d' items' ordered',
                   In (LIST d' items' ordered') toks -> d' = 1.
Proof.
  intros lexer text. unfold lexify, recursivelyFixTokens. split.
  - apply map_fixToken_fixToken.
  - intros d items ordered H.
    apply in_map_fixToken_LIST in H as [-> [items0 ->]].
    split; [reflexivity|].
    intros di itext toks Hit.
    apply in_map_fixItem in Hit as (text' & toks0 & E).
    injection E as -> _ ->. split; [reflexivity|].
    intros d' items' ordered' Hl.
    now apply in_map_fixToken_LIST in Hl as [-> _].
Qed.

(* ------------------------------------------------------------------ *)
(** ** The renderer: items and code blocks *)

Lemma trimRight_nonempty (a : jsstring) (c : N) (b : jsstring) :
  isWhiteSpace c = false -> trimRight (a ++ c :: b) <> [].
Proof.
  intros Hc. induction a as [|y a IH]; simpl.
  - destruct (trimRight b); [rewrite Hc|]; discriminate.
  - destruct (trimRight (a ++ c :: b)); [contradiction|discriminate].
Qed.

Lemma bullet_mark (ctx : RenderingContext) :
  exists a c,
    MarkdownRenderer.bullet ctx = a ++ [c] /\ isWhiteSpace c = false.
Proof.
  unfold MarkdownRenderer.bullet.
  destruct (orderedList ctx) as [[|]|].
  - eexists _, 46%N. split; reflexivity.
  - exists [], 45%N. split; reflexivity.
  - exists [], 45%N. split; reflexivity.
Qed.

(** X11: a list item whose children are of the seven kinds is rendered;
    the text of a rendered list item is never empty and never ends in
    white space before its final line break; an item without children
    renders as its indentation and its bullet alone. *)
Theorem listItem_without_trailing_space :
  forall (item : ListItemToken) (ctx : RenderingContext),
    (modelledItem item = true ->
     exists output, MarkdownRenderer.listItem item ctx = Ok output)
    /\ (forall output,
           MarkdownRenderer.listItem item ctx = Ok output ->
           exists body c,
             output = body ++ [c] ++ EOL /\ isWhiteSpace c = false)
    /\ forall depth text,
         MarkdownRenderer.listItem (ListItem depth text []) ctx
         = Ok (MarkdownRenderer.indentStr
                 (Some (MarkdownRenderer.itemIndent ctx))
                 MarkdownRenderer.twoSpaces
               ++ MarkdownRenderer.bullet ctx ++ EOL).
Proof.
  intros item ctx. destruct (bullet_mark ctx) as (a & c & Hb & Hc).
  split; [|split].
  - intros Hm. pose proof (renderToken_modelled (LIST_ITEM item) ctx) as R.
    cbn [MarkdownRenderer.renderToken modelled] in R.
    destruct (MarkdownRenderer.listItem item ctx) as [output|e];
      [now exists output|].
    destruct R as [R _]. congruence.
  - destruct item as [d text toks]. rewrite listItem_children.
    destruct (renderChildren _ toks) as [r|e]; [|discriminate].
    cbn [andThen]. intros output E. injection E as <-.
    rewrite Hb.
    match goal with
    | |- context [trimRight (?i ++ (a ++ [c]) ++ ?r)] =>
        replace (i ++ (a ++ [c]) ++ r) with ((i ++ a) ++ c :: r)
          by (now rewrite <- !app_assoc);
        pose proof (trimRight_nonempty (i ++ a) c r Hc) as Hne;
        destruct (exists_last Hne) as (body & c' & E)
    end.
    exists body, c'. rewrite E. split; [symmetry; apply app_assoc|].
    eapply trimRight_last. exact E.
  - intros depth text. rewrite listItem_children.
    cbn [renderChildren andThen]. f_equal. rewrite Hb.
    rewrite app_nil_r.
    set (ind := MarkdownRenderer.indentStr
                  (Some (MarkdownRenderer.itemIndent ctx))
                  MarkdownRenderer.twoSpaces).
    transitivity ((ind ++ a ++ [c]) ++ EOL);
      [|symmetry; apply app_assoc].
    f_equal. change (js " ") with [32%N].
    rewrite !app_assoc, trimRight_snoc_space by reflexivity.
    now rewrite trimRight_snoc by exact Hc.
Qed.

Lemma split_nonempty (sep : N) (s : jsstring) : JS.split sep s <> [].
Proof.
  destruct s as [|c s]; simpl; [discriminate|].
  destruct (N.eqb c sep); [discriminate|].
  destruct (JS.split sep s); discriminate.
Qed.

Lemma join_split (sep : N) (s : jsstring) :
  JS.join [sep] (JS.split sep s) = s.
Proof.
  induction s as [|c s IH]; [reflexivity|]. simpl.
  pose proof (split_nonempty sep s) as Hne.
  destruct (N.eqb_spec c sep) as [->|_].
  - destruct (JS.split sep s) as [|p ps]; [contradiction|].
    simpl. simpl in IH. now rewrite IH.
  - destruct (JS.split sep s) as [|p ps]; [contradiction|].
    destruct ps; simpl in *; now rewrite <- IH.
Qed.

Lemma join_snoc (sep : jsstring) (parts : list jsstring) (x : jsstring) :
  parts <> [] -> JS.join sep (parts ++ [x]) = JS.join sep parts ++ sep ++ x.
Proof.
  induction parts as [|p parts IH]; intros H; [contradiction|].
  destruct parts as [|q parts]; [reflexivity|].
  change ((p :: q :: parts) ++ [x]) with (p :: (q :: parts) ++ [x]).
  cbn [app]. rewrite !join_cons.
  change (q :: parts ++ [x]) with ((q :: parts) ++ [x]).
  rewrite IH by discriminate. now rewrite <- !app_assoc.
Qed.

(** X12: at top level a code block is rendered as its opening fence with
    the language, its text as it is, and the closing fence, with no line
    break after the closing fence: the token that follows starts on the
    same line. *)
Theorem render_code_block :
  forall (txt : jsstring) (lang : option jsstring) (rest : list Token),
    MarkdownRenderer.render (CODE txt lang :: rest)
    = andThen (MarkdownRenderer.render rest)
              (fun output =>
                 Ok (MarkdownRenderer.fence
                     ++ match lang with Some l => l | None => js "undefined" end
                     ++ EOL ++ txt ++ EOL ++ MarkdownRenderer.fence
                     ++ output)).
Proof.
  intros txt lang rest.
  cbn [MarkdownRenderer.render MarkdownRenderer.renderToken andThen].
  destruct (MarkdownRenderer.render rest) as [output|e]; [|reflexivity].
  cbn [andThen]. f_equal. unfold MarkdownRenderer.code.
  cbn [indent MarkdownRenderer.indentStr app]. rewrite app_nil_r.
  change (?o :: JS.split 10 txt ++ [MarkdownRenderer.fence])
    with ((o :: JS.split 10 txt) ++ [MarkdownRenderer.fence]).
  rewrite join_snoc by discriminate.
  pose proof (split_nonempty 10 txt) as Hne.
  pose proof (join_split 10 txt) as Hj.
  destruct (JS.split 10 txt) as [|p ps]; [contradiction|].
  rewrite join_cons. change EOL with [10%N]. rewrite Hj.
  now rewrite <- !app_assoc.
Qed.

(* ------------------------------------------------------------------ *)
(** ** The cache and the file *)

Lemma thrown_andThen_Ok (A B : Type) (r : Result A) (f : A -> B) :
  thrown (andThen r (fun a => Ok (f a))) = thrown r.
Proof.
  now destruct r.
Qed.

(** Whether and what the renderer throws is decided by the tokens that
    are neither headings nor paragraphs. *)
Lemma thrown_render_filter (l : list Token) :
  thrown (MarkdownRenderer.render l)
  = thrown (MarkdownRenderer.render (filter otherBlock l)).
Proof.
  induction l as [|t l IH]; [reflexivity|].
  assert (Hplain : forall text : jsstring,
             thrown (andThen (MarkdownRenderer.render l)
                             (fun output => Ok (text ++ output)))
             = thrown (MarkdownRenderer.render (filter otherBlock l))).
  { intros text. now rewrite thrown_andThen_Ok. }
  assert (Hkept : otherBlock t = true ->
            thrown (MarkdownRenderer.render (t :: l))
            = thrown (MarkdownRenderer.render (t :: filter otherBlock l))).
  { intros _. cbn [MarkdownRenderer.render].
    destruct (MarkdownRenderer.renderToken t _) as [text|e]; [|reflexivity].
    cbn [andThen]. now rewrite !thrown_andThen_Ok. }
  destruct t; cbn [filter otherBlock];
    try (now apply Hkept); apply Hplain.
Qed.

Lemma thrown_Markdown_render (l : Tokens) :
  thrown (Markdown.render l) = thrown (MarkdownRenderer.render l).
Proof.
  unfold Markdown.render. now destruct (MarkdownRenderer.render l).
Qed.

Lemma filter_otherBlock_notChangeType (l : list Token) :
  filter otherBlock (filter notChangeType l) = filter otherBlock l.
Proof.
  induction l as [|t l IH]; [reflexivity|]. cbn [filter].
  destruct (notChangeType t) eqn:E; cbn [filter]; [now rewrite IH|].
  destruct t; try discriminate E. exact IH.
Qed.

(** [cutOff] changes nothing but headings and a paragraph. *)
Lemma filter_otherBlock_cutOff version (toks : Tokens) :
  filter otherBlock (cutOff version toks) = filter otherBlock toks.
Proof.
  assert (Hother :
            match toks with
            | t :: _ => isVersionToken t Undefined = false
            | [] => True
            end ->
            filter otherBlock (cutOff version toks) = filter otherBlock toks).
  { intros H. rewrite cutOff_not_found by exact H.
    rewrite !filter_app.
    change (filter otherBlock newSectionTokens) with (@nil Token).
    cbn [app]. rewrite <- filter_app. now rewrite firstn_skipn. }
  destruct toks as [|t rest]; [now apply Hother|].
  destruct t; try (now apply Hother).
  destruct (Nat.eqb_spec depth VERSION_HEADING_DEPTH) as [->|Hd].
  - rewrite cutOff_first_heading.
    destruct (cleanUp_spec rest) as (sec & Hsplit & _ & _ & Hf & _ & _).
    rewrite filter_app.
    change (filter otherBlock newSectionTokens) with (@nil Token).
    cbn [app filter otherBlock]. rewrite filter_app.
    rewrite Hsplit at 3. rewrite filter_app. f_equal.
    rewrite <- (filter_otherBlock_notChangeType sec), <- Hf.
    rewrite filter_otherBlock_notChangeType.
    now destruct (fst (cleanUp rest)).
  - apply Hother. simpl.
    replace (Nat.eqb depth VERSION_HEADING_DEPTH) with false
      by (symmetry; now apply Nat.eqb_neq).
    reflexivity.
Qed.

Lemma thrown_render_cutOff version (toks : Tokens) :
  thrown (Markdown.render (cutOff version toks))
  = thrown (Markdown.render toks).
Proof.
  rewrite !thrown_Markdown_render.
  rewrite (thrown_render_filter (cutOff version toks)).
  rewrite (thrown_render_filter toks).
  now rewrite filter_otherBlock_cutOff.
Qed.

Lemma getTokensAsync_loadedTokens lexer (c : Changelog) :
  getTokensAsync lexer c
  = (Ok (loadedTokens lexer c),
     mkChangelog (Some (loadedTokens lexer c)) (file c)).
Proof.
  unfold getTokensAsync, loadedTokens. destruct c as [[t|] f]; reflexivity.
Qed.

Lemma renamed_first version (toks : Tokens) :
  renamed version toks
  = match toks with
    | t :: rest =>
        if isVersionToken t Undefined then setText version t :: rest
        else toks
    | [] => []
    end.
Proof.
  unfold renamed. rewrite findIndex_isVersionToken.
  destruct toks as [|t rest]; [reflexivity|].
  now destruct (isVersionToken t Undefined).
Qed.

(** X13: [cutOffAsync] and [saveAsync] render before they write.  Since
    [cutOffAsync] adds, removes and renames headings and a paragraph
    only, it throws exactly when the loaded tokens themselves do not
    render, and what [saveAsync] would throw.  Then the file is left as
    it was and the tokens stay loaded; but a version heading in first
    position has its new text already, because the copy that was cut
    shares its tokens with the loaded array. *)
Theorem writes_fail_before_the_file :
  forall lexer version (c : Changelog),
    let toks := loadedTokens lexer c in
    let loaded := mkChangelog (Some toks) (file c) in
    thrown (Markdown.render (cutOff version toks))
    = thrown (Markdown.render toks)
    /\ (forall e,
           Markdown.render toks = Err e ->
           cutOffAsync lexer version c
           = (Err e, mkChangelog (Some (renamed version toks)) (file c))
           /\ saveAsync loaded = (Err e, loaded))
    /\ (forall content,
           Markdown.render toks = Ok content ->
           saveAsync loaded = (Ok tt, mkChangelog None (Some content))
           /\ exists content',
                Markdown.render (cutOff version toks) = Ok content'
                /\ cutOffAsync lexer version c
                   = (Ok tt, mkChangelog None (Some content')))
    /\ renamed version toks
       = match toks with
         | t :: rest =>
             if isVersionToken t Undefined then setText version t :: rest
             else toks
         | [] => []
         end.
Proof.
  intros lexer version c toks loaded.
  pose proof (thrown_render_cutOff version toks) as Hthrown.
  pose proof (cutOffAsync_loaded lexer version c toks loaded
                (getTokensAsync_loadedTokens lexer c)) as Hcut.
  pose proof (saveAsync_loaded loaded toks eq_refl) as Hsave.
  split; [exact Hthrown|]. split; [|split; [|apply renamed_first]].
  - intros e E. rewrite E in Hthrown, Hsave. split; [|exact Hsave].
    destruct (Markdown.render (cutOff version toks)) as [content|e'];
      [discriminate Hthrown|].
    injection Hthrown as ->. exact Hcut.
  - intros content E. rewrite E in Hthrown, Hsave. split; [exact Hsave|].
    destruct (Markdown.render (cutOff version toks)) as [content'|e'];
      [|discriminate Hthrown].
    now exists content'.
Qed.

(** X14: a changelog whose file is missing is an empty one.  No changes
    are read from it; inserting entries fails with [VersionNotFound] and
    writes nothing; saving it then writes a single line break; and
    cutting off a version writes the new section alone. *)
Theorem missing_file_is_empty :
  forall lexer version type group entry entries fromVersion toVersion,
    let missing := mkChangelog None None in
    let empty := mkChangelog (Some []) None in
    getTokensAsync lexer missing = (Ok [], empty)
    /\ getChangesAsync lexer fromVersion toVersion missing
       = (Ok (mkChanges 0 []), empty)
    /\ insertEntriesAsync lexer version type group (entry :: entries) missing
       = (Err (VersionNotFound version), empty)
    /\ saveAsync empty = (Ok tt, mkChangelog None (Some EOL))
    /\ exists content,
         Markdown.render newSectionTokens = Ok content
         /\ cutOffAsync lexer version missing
            = (Ok tt, mkChangelog None (Some content)).
Proof.
  intros. repeat split. eexists. split; reflexivity.
Qed.

(* ------------------------------------------------------------------ *)
(** ** The merge-changelogs command *)

Import MergeChangelogs.

(** The count is the number of entries stored, whatever the arguments,
    whenever the loop ends without throwing. *)
Lemma counted_pushItems (cv cs : jsstring) (items : list ListItemToken) :
  forall c c',
    totalCount c = List.length (versionEntries (versions c)) ->
    pushItems cv cs items c = Ok c' ->
    totalCount c' = List.length (versionEntries (versions c')).
Proof.
  induction items as [|it items IH]; intros c c' Hc.
  - intros E. injection E as <-. exact Hc.
  - cbn [pushItems]. unfold pushItem.
    destruct (objLookup cv (versions c)) as [secs| |] eqn:Ev;
      try discriminate.
    destruct (objLookup cs secs) as [l| |] eqn:Es; try discriminate.
    cbn [andThen]. apply IH. cbn [totalCount versions].
    apply objLookup_own_inv in Ev, Es.
    pose proof (versionEntries_objModify cv
                  (objModify cs (fun l => l ++ [itemText it])) _ _ Ev) as H.
    assert (Hk : objGet cs secs <> None) by congruence.
    pose proof (Permutation_length
                  (sectionEntries_push cs (itemText it) secs Hk)) as P.
    rewrite length_app in P. simpl in P. lia.
Qed.

Lemma counted_scanChanges fromVersion toVersion (toks : list Token) :
  forall st st',
    totalCount (changes st)
    = List.length (versionEntries (versions (changes st))) ->
    scanChanges fromVersion toVersion toks st = Ok st' ->
    totalCount (changes st')
    = List.length (versionEntries (versions (changes st'))).
Proof.
  induction toks as [|t toks IH]; intros st st' Hc.
  - intros E. injection E as <-. exact Hc.
  - destruct t; cbn [scanChanges]; try (now apply IH).
    + destruct (Nat.eqb depth VERSION_HEADING_DEPTH).
      * destruct (stopsAt fromVersion toVersion text).
        -- intros E. injection E as <-. exact Hc.
        -- apply IH. unfold enterVersion. cbn [changes totalCount versions].
           now rewrite versionEntries_objInit.
      * destruct (currentVersion st) as [cv|]; [|now apply IH].
        destruct (truthy cv && Nat.eqb depth CHANGE_TYPE_HEADING_DEPTH);
          [|now apply IH].
        unfold enterSection.
        destruct (objLookup cv (versions (changes st))) as [secs| |] eqn:Ev;
          try discriminate.
        cbn [andThen]. apply IH. cbn [changes totalCount versions].
        apply objLookup_own_inv in Ev.
        pose proof (versionEntries_objModify cv (objInit text []) _ _ Ev)
          as H.
        rewrite sectionEntries_objInit in H. lia.
    + destruct (currentVersion st) as [cv|]; [|now apply IH].
      destruct (currentSection st) as [cs|]; [|now apply IH].
      destruct (truthy cv && truthy cs); [|now apply IH].
      unfold collectList.
      destruct (pushItems cv cs items (changes st)) as [c1|e] eqn:E1;
        [|discriminate].
      cbn [andThen]. apply IH. cbn [changes].
      now apply (counted_pushItems cv cs items (changes st)).
Qed.

Lemma getChanges_counted fromVersion toVersion (toks : Tokens)
      (r : ChangelogChanges) :
  getChanges fromVersion toVersion toks = Ok r ->
  totalCount r = List.length (versionEntries (versions r)).
Proof.
  unfold getChanges.
  destruct (scanChanges _ _ toks initialScan) as [st'|e] eqn:E;
    [|discriminate].
  cbn [andThen]. intros H. injection H as <-.
  assert (H0 : totalCount (changes initialScan)
               = List.length
                   (versionEntries (versions (changes initialScan))))
    by reflexivity.
  exact (counted_scanChanges _ _ toks initialScan st' H0 E).
Qed.

(** With the default arguments nothing but a TypeError is thrown. *)
Lemma getChanges_default_error (toks : Tokens) (e : Error) :
  getChanges None None toks = Err e -> e = TypeError.
Proof.
  unfold getChanges.
  pose proof (onlyUnpublished_scanChanges (fun _ => True) toks
                (fun _ _ => I) initialScan) as H.
  destruct (scanChanges None UNPUBLISHED_VERSION_NAME toks initialScan)
    as [st'|e']; [discriminate|].
  cbn [andThen]. intros E. injection E as <-. apply H.
  - left. split; reflexivity.
  - intros cs secs Hcs. discriminate Hcs.
Qed.

Lemma packageChanges_file lexer (pkg : Package) :
  packageChanges lexer pkg
  = match changelogFile pkg with
    | Some markdown =>
        andThen (getChanges None None (lexify lexer markdown))
                (fun changes =>
                   Ok (if Nat.ltb 0 (totalCount changes)
                       then Some changes else None))
    | None => Ok None
    end.
Proof.
  unfold packageChanges, fileExistsAsync, getChangesAsync, getTokensAsync,
    bind, lift.
  cbn [file tokens]. destruct (changelogFile pkg) as [md|]; [|reflexivity].
  cbn [file tokens].
  now destruct (getChanges None None (lexify lexer md)).
Qed.

Lemma hasEntries_versionEntries (vs : Obj (Obj (list jsstring))) :
  versionEntries vs <> [] -> hasEntries vs = true.
Proof.
  unfold versionEntries, hasEntries.
  induction vs as [|[k secs] vs IH]; simpl; [congruence|].
  intros H. apply orb_true_iff.
  destruct (sectionEntries secs) as [|x l] eqn:E.
  - right. now apply IH.
  - left. clear -E. unfold sectionEntries in E.
    induction secs as [|[ty msgs] secs IHs]; simpl in *; [discriminate|].
    destruct msgs; [now apply IHs|reflexivity].
Qed.

Lemma packageChanges_hasEntries lexer (pkg : Package)
      (changes : ChangelogChanges) :
  packageChanges lexer pkg = Ok (Some changes) ->
  hasEntries (versions changes) = true.
Proof.
  rewrite packageChanges_file.
  destruct (changelogFile pkg) as [md|]; [|discriminate].
  destruct (getChanges None None (lexify lexer md)) as [r|e] eqn:E;
    [|discriminate].
  cbn [andThen]. destruct (Nat.ltb_spec 0 (totalCount r)) as [Hpos|Hpos];
    [|discriminate].
  intros H. injection H as <-.
  apply hasEntries_versionEntries.
  apply getChanges_counted in E. intros Hnil. rewrite Hnil in E.
  simpl in E. lia.
Qed.

Lemma objSet_in (V : Type) (key : jsstring) (v : V) (o : Obj V) k w :
  In (k, w) (objSet key v o) -> (w = v) \/ In (k, w) o.
Proof.
  induction o as [|[k' w'] o IH]; simpl.
  - intros [H|[]]. injection H as _ <-. now left.
  - destruct (streq k' key); simpl.
    + intros [H|H]; [injection H as _ <-; now left|right; now right].
    + intros [H|H]; [right; now left|].
      apply IH in H as [H|H]; [now left|right; now right].
Qed.

Lemma assign_in (V : Type) (key : jsstring) (v : V) (o : Obj V) k w :
  In (k, w) (assign key v o) -> (w = v) \/ In (k, w) o.
Proof.
  unfold assign. destruct (streq key (js "__proto__")); [now right|].
  apply objSet_in.
Qed.

Lemma objSet_nonempty (V : Type) (key : jsstring) (v : V) (o : Obj V) :
  objSet key v o <> [].
Proof.
  destruct o as [|[k w] o]; simpl; [discriminate|].
  destruct (streq k key); discriminate.
Qed.

Lemma assign_nonempty (V : Type) (key : jsstring) (v : V) (o : Obj V) :
  o <> [] \/ key <> js "__proto__" -> assign key v o <> [].
Proof.
  unfold assign. destruct (streq key (js "__proto__")) eqn:E.
  - apply streq_eq in E. intros [H|H]; [exact H|contradiction].
  - intros _. apply objSet_nonempty.
Qed.

(** When no callback throws, every value stored holds an entry. *)
Lemma collectFrom_values lexer (packages : list Package) :
  forall acc cc,
    (forall k ch, In (k, ch) acc -> hasEntries (versions ch) = true) ->
    collectFrom lexer packages acc = Ok cc ->
    forall k ch, In (k, ch) cc -> hasEntries (versions ch) = true.
Proof.
  induction packages as [|pkg packages IH]; intros acc cc Hacc.
  - intros E. injection E as <-. exact Hacc.
  - cbn [collectFrom].
    destruct (packageChanges lexer pkg) as [stored|e] eqn:E;
      [|discriminate].
    cbn [andThen]. apply IH.
    destruct stored as [changes|]; [|exact Hacc].
    intros k ch H. apply assign_in in H as [->|H].
    + now apply (packageChanges_hasEntries lexer pkg).
    + now apply (Hacc k).
Qed.

Lemma collectFrom_nonempty lexer (packages : list Package) :
  forall acc cc,
    acc <> []
    \/ (exists pkg changes,
           In pkg packages
           /\ packageChanges lexer pkg = Ok (Some changes)
           /\ packageName pkg <> js "__proto__") ->
    collectFrom lexer packages acc = Ok cc ->
    cc <> [].
Proof.
  induction packages as [|pkg packages IH]; intros acc cc H.
  - intros E. injection E as <-.
    destruct H as [H|(pkg & ch & [] & _)]. exact H.
  - cbn [collectFrom].
    destruct (packageChanges lexer pkg) as [stored|e] eqn:E;
      [|discriminate].
    cbn [andThen]. apply IH.
    destruct H as [H|(p & ch & [<-|Hin] & Hp & Hn)].
    + left. destruct stored; [|exact H]. apply assign_nonempty. now left.
    + left. rewrite E in Hp. injection Hp as ->.
      apply assign_nonempty. now right.
    + right. now exists p, ch.
Qed.

Lemma collectFrom_none lexer (packages : list Package) :
  forall acc,
    (forall pkg, In pkg packages -> packageChanges lexer pkg = Ok None) ->
    collectFrom lexer packages acc = Ok acc.
Proof.
  induction packages as [|pkg packages IH]; intros acc H; [reflexivity|].
  cbn [collectFrom]. rewrite (H pkg) by now left.
  cbn [andThen]. apply IH. intros p Hp. apply H. now right.
Qed.

Lemma collectFrom_ok lexer (packages : list Package) :
  forall acc,
    (forall pkg, In pkg packages ->
                 exists stored, packageChanges lexer pkg = Ok stored) ->
    exists cc, collectFrom lexer packages acc = Ok cc.
Proof.
  induction packages as [|pkg packages IH]; intros acc H; [now exists acc|].
  cbn [collectFrom]. destruct (H pkg) as [stored E]; [now left|].
  rewrite E. cbn [andThen]. apply IH. intros p Hp. apply H. now right.
Qed.

Lemma packageChanges_error lexer (pkg : Package) (e : Error) :
  packageChanges lexer pkg = Err e -> e = TypeError.
Proof.
  rewrite packageChanges_file.
  destruct (changelogFile pkg) as [md|]; [|discriminate].
  destruct (getChanges None None (lexify lexer md)) as [r|e'] eqn:E;
    [discriminate|].
  cbn [andThen]. intros H. injection H as <-.
  now apply (getChanges_default_error (lexify lexer md)).
Qed.

Lemma collectFrom_error lexer (packages : list Package) :
  forall acc pkg e,
    In pkg packages ->
    packageChanges lexer pkg = Err e ->
    collectFrom lexer packages acc = Err TypeError.
Proof.
  induction packages as [|p packages IH]; intros acc pkg e Hin He;
    [destruct Hin|].
  cbn [collectFrom].
  destruct (packageChanges lexer p) as [stored|e'] eqn:E.
  - cbn [andThen]. destruct Hin as [->|Hin]; [congruence|].
    now apply (IH _ pkg e).
  - cbn [andThen]. f_equal. now apply (packageChanges_error lexer p).
Qed.

Lemma insertSorted_in (x y : jsstring) (l : list jsstring) :
  In y (insertSorted x l) <-> y = x \/ In y l.
Proof.
  induction l as [|z l IH]; simpl.
  - intuition.
  - destruct (strLeb x z); simpl; rewrite ?IH; intuition.
Qed.

Lemma sort_in (y : jsstring) (l : list jsstring) :
  In y (sort l) <-> In y l.
Proof.
  unfold sort. induction l as [|x l IH]; simpl; [tauto|].
  rewrite insertSorted_in, IH. intuition.
Qed.

Lemma objGet_first (V : Type) (o : Obj V) (k : jsstring) (v : V) :
  In (k, v) o -> exists w, objGet k o = Some w /\ In (k, w) o.
Proof.
  induction o as [|[k' w'] o IH]; simpl; [tauto|].
  intros H. destruct (streq k' k) eqn:E.
  - apply streq_eq in E. subst. exists w'. split; [reflexivity|now left].
  - destruct H as [H|H].
    + injection H as -> _. now rewrite streq_refl in E.
    + destruct (IH H) as (w & Hw & Hin). exists w. split; [exact Hw|now right].
Qed.

(** Every call that has entries fails once the main changelog has no
    [master] heading; the calls without entries return at once. *)
Lemma insert_without_master lexer (c : Changelog) (toks : Tokens) type group
      entry entries :
  tokens c = Some toks ->
  Forall (fun t => isVersionToken t (Str (js "master")) = false) toks ->
  insertEntriesAsync lexer (js "master") type group (entry :: entries) c
  = (Err (VersionNotFound (js "master")), c).
Proof.
  intros Ht Hm.
  assert (Hload : getTokensAsync lexer c = (Ok toks, c)).
  { unfold getTokensAsync. now rewrite Ht. }
  assert (He : entry :: entries <> []) by discriminate.
  rewrite (insertEntriesAsync_loaded lexer (js "master") type group
             (entry :: entries) c toks c He Hload).
  now rewrite insertEntries_no_version.
Qed.

Lemma insertTypes_without_master lexer (c : Changelog) (toks : Tokens) name
      (secs : Obj (list jsstring)) :
  tokens c = Some toks ->
  Forall (fun t => isVersionToken t (Str (js "master")) = false) toks ->
  insertTypes lexer name secs c
  = if existsb (fun s => match snd s with [] => false | _ :: _ => true end)
               secs
    then (Err (VersionNotFound (js "master")), c)
    else (Ok tt, c).
Proof.
  intros Ht Hm. induction secs as [|[type msgs] secs IH]; [reflexivity|].
  cbn [insertTypes existsb snd]. unfold bind.
  destruct msgs as [|m msgs].
  - cbn [map insertEntriesAsync ret orb]. exact IH.
  - cbn [map orb].
    now rewrite (insert_without_master lexer c toks type (Some name) _ _ Ht Hm).
Qed.

Lemma insertVersions_without_master lexer (c : Changelog) (toks : Tokens) name
      (vs : Obj (Obj (list jsstring))) :
  tokens c = Some toks ->
  Forall (fun t => isVersionToken t (Str (js "master")) = false) toks ->
  insertVersions lexer name vs c
  = if hasEntries vs
    then (Err (VersionNotFound (js "master")), c)
    else (Ok tt, c).
Proof.
  intros Ht Hm. induction vs as [|[v secs] vs IH]; [reflexivity|].
  cbn [insertVersions]. unfold bind, hasEntries. cbn [existsb snd].
  rewrite (insertTypes_without_master lexer c toks name secs Ht Hm).
  destruct (existsb _ secs); [reflexivity|]. exact IH.
Qed.

Lemma insertPackages_without_master lexer (c : Changelog) (toks : Tokens)
      (cc : Obj ChangelogChanges) (names : list jsstring) :
  tokens c = Some toks ->
  Forall (fun t => isVersionToken t (Str (js "master")) = false) toks ->
  insertPackages lexer names cc c
  = if existsb (fun name => match objGet name cc with
                            | Some ch => hasEntries (versions ch)
                            | None => false
                            end) names
    then (Err (VersionNotFound (js "master")), c)
    else (Ok tt, c).
Proof.
  intros Ht Hm. induction names as [|name names IH]; [reflexivity|].
  cbn [insertPackages existsb]. unfold bind.
  destruct (objGet name cc) as [ch|].
  - rewrite (insertVersions_without_master lexer c toks name _ Ht Hm).
    destruct (hasEntries (versions ch)); [reflexivity|exact IH].
  - cbn [ret orb]. exact IH.
Qed.

Lemma action_collected lexer (packages : list Package)
      (mainFile : option jsstring) (cc : Obj ChangelogChanges) :
  collectChanges lexer packages = Ok cc ->
  action lexer packages mainFile
  = match insertPackages lexer (sort (map fst cc)) cc
            (mkChangelog (Some (loadedFrom lexer mainFile)) mainFile) with
    | (Ok _, c) => saveAsync c
    | (Err e, c) => (Err e, c)
    end.
Proof.
  intros E. unfold action, bind, getTokensAsync. rewrite E.
  cbn [tokens file]. destruct mainFile; reflexivity.
Qed.

(** X15: when no package has a changelog file with an unpublished entry
    (and reading the changes of none throws), the command inserts
    nothing; it still loads the main changelog and saves it.  So the
    main file becomes the rendering of its own tokens (a single line
    break when it was missing) - unless these do not render: then the
    command throws what the renderer throws and writes nothing. *)
Theorem action_without_changes :
  forall lexer (packages : list Package) (mainFile : option jsstring),
    (forall pkg markdown,
        In pkg packages ->
        changelogFile pkg = Some markdown ->
        exists r,
          getChanges None None (lexify lexer markdown) = Ok r
          /\ totalCount r = 0) ->
    action lexer packages mainFile
    = match Markdown.render (loadedFrom lexer mainFile) with
      | Ok content => (Ok tt, mkChangelog None (Some content))
      | Err e =>
          (Err e, mkChangelog (Some (loadedFrom lexer mainFile)) mainFile)
      end.
Proof.
  intros lexer packages mainFile H.
  assert (E : collectChanges lexer packages = Ok []).
  { apply collectFrom_none. intros pkg Hin. rewrite packageChanges_file.
    destruct (changelogFile pkg) as [md|] eqn:Ef; [|reflexivity].
    destruct (H pkg md Hin Ef) as (r & -> & Hr). cbn [andThen].
    now rewrite Hr. }
  rewrite (action_collected lexer packages mainFile [] E).
  cbn [map sort fold_right insertPackages ret].
  now rewrite (saveAsync_loaded
                 (mkChangelog (Some (loadedFrom lexer mainFile)) mainFile)
                 (loadedFrom lexer mainFile) eq_refl).
Qed.

Lemma action_without_changes_witness :
  action toyLexer
         [mkPackage (js "expo-foo") None; mkPackage (js "expo-bar") (Some [])]
         (Some [])
  = match Markdown.render (loadedFrom toyLexer (Some [])) with
    | Ok content => (Ok tt, mkChangelog None (Some content))
    | Err e =>
        (Err e, mkChangelog (Some (loadedFrom toyLexer (Some []))) (Some []))
    end.
Proof.
  apply (action_without_changes toyLexer
           [mkPackage (js "expo-foo") None;
            mkPackage (js "expo-bar") (Some [])] (Some [])).
  intros pkg markdown [<-|[<-|[]]] E; [discriminate|].
  injection E as <-. eexists. split; reflexivity.
Defined.

(** X16: when reading the changes of no package throws, some package
    (not named [__proto__]) has an unpublished entry and the main
    changelog has no [master] heading, the command fails with
    [VersionNotFound]: nothing is inserted and the main file is not
    written. *)
Theorem action_without_master :
  forall lexer (packages : list Package) (mainFile : option jsstring)
         pkg markdown r,
    (forall p md,
        In p packages ->
        changelogFile p = Some md ->
        exists r', getChanges None None (lexify lexer md) = Ok r') ->
    In pkg packages ->
    packageName pkg <> js "__proto__" ->
    changelogFile pkg = Some markdown ->
    getChanges None None (lexify lexer markdown) = Ok r ->
    0 < totalCount r ->
    ~ In (HEADING VERSION_HEADING_DEPTH (js "master"))
         (loadedFrom lexer mainFile) ->
    action lexer packages mainFile
    = (Err (VersionNotFound (js "master")),
       mkChangelog (Some (loadedFrom lexer mainFile)) mainFile).
Proof.
  intros lexer packages mainFile pkg markdown r Hall Hin Hname Hf Hr Hpos
         Hmain.
  assert (Hm : Forall (fun t => isVersionToken t (Str (js "master")) = false)
                      (loadedFrom lexer mainFile)).
  { apply Forall_forall. intros t Ht.
    destruct (isVersionToken t (Str (js "master"))) eqn:E; [|reflexivity].
    apply isVersionToken_text in E; [|discriminate]. now subst. }
  destruct (collectFrom_ok lexer packages []) as [cc Ecc].
  { intros p Hp. rewrite packageChanges_file.
    destruct (changelogFile p) as [md|] eqn:Ef; [|now eexists].
    destruct (Hall p md Hp Ef) as [r' ->]. cbn [andThen]. now eexists. }
  rewrite (action_collected lexer packages mainFile cc Ecc).
  rewrite (insertPackages_without_master lexer
             (mkChangelog (Some (loadedFrom lexer mainFile)) mainFile)
             (loadedFrom lexer mainFile) _ _ eq_refl Hm).
  assert (Hne : cc <> []).
  { apply (collectFrom_nonempty lexer packages [] cc); [|exact Ecc].
    right. exists pkg, r. split; [exact Hin|]. split; [|exact Hname].
    rewrite packageChanges_file, Hf, Hr. cbn [andThen].
    apply Nat.ltb_lt in Hpos. now rewrite Hpos. }
  assert (Hvals : forall k ch, In (k, ch) cc ->
                               hasEntries (versions ch) = true).
  { apply (collectFrom_values lexer packages [] cc); [|exact Ecc].
    intros k ch []. }
  destruct cc as [|[name ch] cc]; [contradiction|].
  destruct (objGet_first _ ((name, ch) :: cc) name ch (or_introl eq_refl))
    as (w & Hw & Hwin).
  replace (existsb _ (sort (map fst ((name, ch) :: cc)))) with true;
    [reflexivity|].
  symmetry. apply existsb_exists. exists name. split.
  - apply sort_in. now left.
  - rewrite Hw. now apply (Hvals name).
Qed.

Lemma action_without_master_witness :
  action toyLexer
         [mkPackage (js "expo-foo") None;
          mkPackage (js "expo-bar") (Some (js "x"))]
         (Some [])
  = (Err (VersionNotFound (js "master")),
     mkChangelog (Some (loadedFrom toyLexer (Some []))) (Some [])).
Proof.
  apply (action_without_master toyLexer
           [mkPackage (js "expo-foo") None;
            mkPackage (js "expo-bar") (Some (js "x"))] (Some [])
           (mkPackage (js "expo-bar") (Some (js "x"))) (js "x")
           (mkChanges 1 [(unpublished, [(js "Bug fixes", [js "Fixed X"])])])).
  - intros p md [<-|[<-|[]]] E; [discriminate|].
    injection E as <-. eexists. reflexivity.
  - right. now left.
  - discriminate.
  - reflexivity.
  - reflexivity.
  - simpl. lia.
  - simpl. intros [H|[]]. discriminate.
Defined.

(** X18: when reading the changes of some package throws - which happens
    when a list with an item follows a change-type heading named after a
    member of [Object.prototype] - the command throws a TypeError before
    the main changelog is read: it is neither loaded nor written. *)
Theorem action_package_throws :
  forall lexer (packages : list Package) (mainFile : option jsstring)
         pkg markdown e,
    In pkg packages ->
    changelogFile pkg = Some markdown ->
    getChanges None None (lexify lexer markdown) = Err e ->
    action lexer packages mainFile
    = (Err TypeError, mkChangelog None mainFile).
Proof.
  intros lexer packages mainFile pkg markdown e Hin Hf He.
  unfold action, collectChanges.
  rewrite (collectFrom_error lexer packages [] pkg e Hin); [reflexivity|].
  now rewrite packageChanges_file, Hf, He.
Qed.

Lemma action_package_throws_witness :
  action (fun _ => [HEADING 2 (js "master"); HEADING 3 (js "constructor");
                    LIST 0 [createListItemToken (js "Fixed X")] false])
         [mkPackage (js "expo-foo") None;
          mkPackage (js "expo-bar") (Some (js "x"))]
         (Some [])
  = (Err TypeError, mkChangelog None (Some [])).
Proof.
  apply (action_package_throws _ _ (Some [])
           (mkPackage (js "expo-bar") (Some (js "x"))) (js "x") TypeError).
  - right. now left.
  - reflexivity.
  - reflexivity.
Defined.

(* ------------------------------------------------------------------ *)
(** ** The versions across an insertion *)

Lemma insertEntries_versions version type group entries (toks toks' : Tokens) :
  insertEntries version type group entries toks = Ok toks' ->
  getVersions toks' = getVersions toks.
Proof.
  unfold insertEntries. destruct (_ =? -1)%Z; [discriminate|].
  intros H. apply scanSection_frame in H as [H _].
  now rewrite <- (getVersions_notList toks'), H, getVersions_notList.
Qed.

Lemma getVersionsAsync_result lexer (c : Changelog) :
  fst (getVersionsAsync lexer c)
  = Ok (getVersions (match tokens c with
                     | Some t => t
                     | None => loadedFrom lexer (file c)
                     end)).
Proof.
  unfold getVersionsAsync, getTokensAsync, bind, ret, loadedFrom.
  destruct (tokens c); reflexivity.
Qed.

Lemma getLastPublishedVersionAsync_result lexer semverValid (c : Changelog) :
  fst (getLastPublishedVersionAsync lexer semverValid c)
  = match fst (getVersionsAsync lexer c) with
    | Ok versions => Ok (List.find semverValid versions)
    | Err e => Err e
    end.
Proof.
  unfold getLastPublishedVersionAsync, bind, ret.
  destruct (getVersionsAsync lexer c) as [[vs|e] c']; reflexivity.
Qed.

(** X17: whether it inserts, returns early or throws, [insertEntriesAsync]
    never changes what [getVersionsAsync] and
    [getLastPublishedVersionAsync] answer afterwards. *)
Theorem insertEntriesAsync_keeps_versions :
  forall lexer semverValid version type group entries (c : Changelog),
    let after := snd (insertEntriesAsync lexer version type group entries c) in
    fst (getVersionsAsync lexer after) = fst (getVersionsAsync lexer c)
    /\ fst (getLastPublishedVersionAsync lexer semverValid after)
       = fst (getLastPublishedVersionAsync lexer semverValid c).
Proof.
  intros lexer semverValid version type group entries c after.
  assert (H : fst (getVersionsAsync lexer after)
              = fst (getVersionsAsync lexer c)).
  { subst after. rewrite !getVersionsAsync_result.
    destruct entries as [|entry entries]; [reflexivity|].
    destruct (getTokensAsync_total lexer c) as (toks & c' & Hload).
    assert (He : entry :: entries <> []) by discriminate.
    rewrite (insertEntriesAsync_loaded lexer version type group
               (entry :: entries) c toks c' He Hload).
    assert (Hc : match tokens c with
                 | Some t => t
                 | None => loadedFrom lexer (file c)
                 end = toks).
    { revert Hload. unfold getTokensAsync, loadedFrom.
      destruct (tokens c); intros E; now injection E as <- _. }
    rewrite Hc.
    destruct (getTokensAsync_loaded lexer c c' toks Hload) as (Ht & _ & _).
    destruct (insertEntries version type group (entry :: entries) toks)
      as [toks'|e] eqn:E; cbn [snd tokens].
    - f_equal. now apply (insertEntries_versions version type group
                            (entry :: entries)).
    - now rewrite Ht. }
  split; [exact H|].
  now rewrite !getLastPublishedVersionAsync_result, H.
Qed.
